(** * car-inside: the expression-signal pipeline, embedded and verified

    A shallow embedding of the TypeScript sources of the repository:

    - [logic/smoother.ts]      EmaSmoother, SignalSmoother, LabelStabilizer
    - [logic/expression.ts]    signal extraction and threshold classifier
    - [logic/mapToMeme.ts]     label to asset key
    - [memes/memeRegistry.ts]  the asset registry
    - [App.tsx]                getTongueConfidence, classifyFromRanges and
                               the per-frame callback [onResult]
    - [vision/runLoop.ts]      the timer loop that drives the callback

    Conventions.  A JavaScript [number] is a rational ([Q]) with exact
    arithmetic; comparisons are the boolean tests below.  Counters that
    the code only ever increments by one are [Z].  [null]/[undefined] is
    [None].  A React ref or state cell is a field of [Session]; the
    callback is a function from the session before a frame to the session
    after it.  An object literal used as a map is the finite map of its
    own entries; reading a key it does not own falls through to
    [Object.prototype], whose member names are [objectPrototypeKeys]. *)

From Stdlib Require Import QArith Qminmax Qround Qabs ZArith Lia Lqa.
From stdpp Require Import base option list strings gmap.

Open Scope Q_scope.

(** ** Numbers *)

Definition Qltb (a b : Q) : bool := negb (Qle_bool b a).
Definition Qgtb (a b : Q) : bool := Qltb b a.
Definition Qleb (a b : Q) : bool := Qle_bool a b.
Definition Qgeb (a b : Q) : bool := Qle_bool b a.

(** ** Plain objects *)

(** The names a plain object inherits from [Object.prototype].  Reading
    one of them from an object that does not own it yields the inherited
    member (a function, or the prototype itself for [__proto__]), which
    is neither [null] nor [undefined] and is truthy. *)
Definition objectPrototypeKeys : list string :=
  ["constructor"; "__defineGetter__"; "__defineSetter__"; "hasOwnProperty";
   "__lookupGetter__"; "__lookupSetter__"; "isPrototypeOf";
   "propertyIsEnumerable"; "toString"; "valueOf"; "__proto__";
   "toLocaleString"]%string.

(** What [object[key]] evaluates to on a plain object with own entries
    of type [A]. *)
Inductive Member (A : Type) :=
  | own (a : A)
  | inherited (name : string)
  | undefined.
Arguments own {A} a.
Arguments inherited {A} name.
Arguments undefined {A}.

Definition get {A : Type} (object : gmap string A) (key : string) : Member A :=
  match object !! key with
  | Some a => own a
  | None =>
      if bool_decide (key ∈ objectPrototypeKeys) then inherited key
      else undefined
  end.

(** ** logic/smoother.ts *)

Module EmaSmoother.

Record t := mk { alpha : Q; value : option Q }.

(** [constructor(alpha = 0.35)] *)
Definition new (a : option Q) : t :=
  {| alpha := default 0.35 a; value := None |}.

Definition update (s : t) (next : Q) : t * Q :=
  match value s with
  | None => ({| alpha := alpha s; value := Some next |}, next)
  | Some v =>
      let v' := alpha s * next + (1 - alpha s) * v in
      ({| alpha := alpha s; value := Some v' |}, v')
  end.

End EmaSmoother.

Module SignalSmoother.

Record t := mk { smoothers : gmap string EmaSmoother.t; alpha : Q }.

(** [constructor(alpha = 0.35)] *)
Definition new (a : option Q) : t :=
  {| smoothers := ∅; alpha := default 0.35 a |}.

(** One turn of the [for (const key of keys)] loop: the smoother of
    [key] is created when [this.smoothers[keyStr]] is falsy, updated,
    and the smoothed value is written to the output under the same key.
    For a key that [smoothers] does not own and [Object.prototype]
    has, the read is truthy, no smoother is created, and the call of
    its [update] throws a TypeError: [None]. *)
Definition step (acc : t * gmap string Q) (entry : string * Q)
  : option (t * gmap string Q) :=
  let '(s, output) := acc in
  let '(key, value) := entry in
  sm ← match get (smoothers s) key with
       | own e => Some e
       | undefined => Some (EmaSmoother.new (Some (alpha s)))
       | inherited _ => None
       end;
  let '(sm', v) := EmaSmoother.update sm value in
  Some ({| smoothers := <[key := sm']> (smoothers s); alpha := alpha s |},
        <[key := v]> output).

(** The [for] loop over the keys. *)
Fixpoint loop (acc : t * gmap string Q) (entries : list (string * Q))
  : option (t * gmap string Q) :=
  match entries with
  | [] => Some acc
  | entry :: rest => acc' ← step acc entry; loop acc' rest
  end.

(** [update(signals)]: the signals are the entries of the object in
    key order, the output starts as a copy of them. *)
Definition update (s : t) (signals : list (string * Q))
  : option (t * gmap string Q) :=
  loop (s, list_to_map signals) signals.

End SignalSmoother.

Module LabelStabilizer.
Section Generic.

Context {T : Type} `{EqDecision T}.

Record t := mk {
  current : T;
  pending : option T;
  pendingFrames : Z;
  lastSwitchAt : Q;
  stableFrames : Z;
  cooldownMs : Q
}.

(** [constructor(initial, stableFrames = 4, cooldownMs = 500)]; an
    omitted argument is [None]. *)
Definition new (initial : T) (sf : option Z) (cd : option Q) : t :=
  {| current := initial;
     pending := None;
     pendingFrames := 0;
     lastSwitchAt := 0;
     stableFrames := default 4%Z sf;
     cooldownMs := default 500 cd |}.

Definition update (s : t) (label : T) (nowMs : Q) : t * T :=
  if decide (label = current s) then
    ({| current := current s; pending := None; pendingFrames := 0;
        lastSwitchAt := lastSwitchAt s;
        stableFrames := stableFrames s; cooldownMs := cooldownMs s |},
     current s)
  else if decide (Some label <> pending s) then
    ({| current := current s; pending := Some label; pendingFrames := 1;
        lastSwitchAt := lastSwitchAt s;
        stableFrames := stableFrames s; cooldownMs := cooldownMs s |},
     current s)
  else
    let frames := (pendingFrames s + 1)%Z in
    if (stableFrames s <=? frames)%Z
       && Qgeb (nowMs - lastSwitchAt s) (cooldownMs s)
    then
      ({| current := label; pending := None; pendingFrames := 0;
          lastSwitchAt := nowMs;
          stableFrames := stableFrames s; cooldownMs := cooldownMs s |},
       label)
    else
      ({| current := current s; pending := pending s;
          pendingFrames := frames;
          lastSwitchAt := lastSwitchAt s;
          stableFrames := stableFrames s; cooldownMs := cooldownMs s |},
       current s).

Definition getCurrent (s : t) : T := current s.

(** A sequence of [update] calls on one object: the final object and
    the value each call returned. *)
Fixpoint run (s : t) (calls : list (T * Q)) : t * list T :=
  match calls with
  | [] => (s, [])
  | (label, nowMs) :: rest =>
      let '(s1, out) := update s label nowMs in
      let '(s2, outs) := run s1 rest in
      (s2, out :: outs)
  end.

End Generic.
Arguments t : clear implicits.
End LabelStabilizer.

(** ** logic/expression.ts *)

(** The four labels of expression.ts and [FREAKY], the tongue label that
    mapToMeme.ts and App.tsx use. *)
Inductive ExpressionLabel := NEUTRAL | SMILE | SCREAM | SQUINT | FREAKY.

#[global] Instance ExpressionLabel_eq_dec : EqDecision ExpressionLabel.
Proof. solve_decision. Defined.

Record ExpressionSignals := mkSignals {
  faceW : Q;
  mouthOpen : Q;
  smile : Q;
  eyeOpen : Q
}.

(** The threshold object; [tongueOut] is the entry App.tsx puts in its
    literal, which [classifyExpression] does not read. *)
Module Thresholds.
Record t := mk {
  tongueOut : Q;
  mouthOpenScream : Q;
  smile : Q;
  mouthOpenSmileMax : Q;
  eyeOpenSquint : Q
}.
End Thresholds.

Record BlendshapeCategory := mkCategory {
  categoryName : string;
  score : Q
}.

Module Landmark.
Record t := mk { x : Q; y : Q }.
End Landmark.

Module IDX.
Definition leftCheek : nat := 234.
Definition rightCheek : nat := 454.
Definition noseTip : nat := 1.
Definition chin : nat := 152.
Definition leftEyeOuter : nat := 33.
Definition leftEyeInner : nat := 133.
Definition upperLip : nat := 13.
Definition lowerLip : nat := 14.
Definition mouthLeft : nat := 61.
Definition mouthRight : nat := 291.
Definition leftEyeTop : nat := 159.
Definition leftEyeBottom : nat := 145.
Definition rightEyeOuter : nat := 263.
Definition rightEyeInner : nat := 362.
Definition rightEyeTop : nat := 386.
Definition rightEyeBottom : nat := 374.
End IDX.

Definition getScore (categories : list BlendshapeCategory) (name : string)
  : option Q :=
  match List.find (fun entry => bool_decide (categoryName entry = name))
                  categories with
  | Some item => Some (score item)
  | None => None
  end.

(** The object [getBlendshapeDebug] returns: four entries. *)
Record BlendshapeDebug := mkDebug {
  dbg_jawOpen : Q;
  dbg_mouthFunnel : Q;
  dbg_mouthSmile : Q;
  dbg_eyeSquint : Q
}.

(** App.tsx also reads [mouthUpperUp] and [tongueOut] from that object,
    which has neither entry: both reads yield [undefined]. *)
Definition dbg_mouthUpperUp (blendDebug : BlendshapeDebug) : option Q := None.
Definition dbg_tongueOut (blendDebug : BlendshapeDebug) : option Q := None.

Definition getBlendshapeDebug (categories : option (list BlendshapeCategory))
  : option BlendshapeDebug :=
  match categories with
  | None | Some [] => None
  | Some categories =>
      let jawOpen := default 0 (getScore categories "jawOpen") in
      let mouthFunnel := default 0 (getScore categories "mouthFunnel") in
      let mouthSmileLeft := default 0 (getScore categories "mouthSmileLeft") in
      let mouthSmileRight := default 0 (getScore categories "mouthSmileRight") in
      let eyeSquintLeft := default 0 (getScore categories "eyeSquintLeft") in
      let eyeSquintRight := default 0 (getScore categories "eyeSquintRight") in
      Some {| dbg_jawOpen := jawOpen;
              dbg_mouthFunnel := mouthFunnel;
              dbg_mouthSmile := (mouthSmileLeft + mouthSmileRight) / 2;
              dbg_eyeSquint := (eyeSquintLeft + eyeSquintRight) / 2 |}
  end.

Definition computeBlendshapeSignals
  (categories : option (list BlendshapeCategory)) : option ExpressionSignals :=
  match categories with
  | None | Some [] => None
  | Some categories =>
      let jawOpen := default 0 (getScore categories "jawOpen") in
      let mouthFunnel := default 0 (getScore categories "mouthFunnel") in
      let mouthSmileLeft := default 0 (getScore categories "mouthSmileLeft") in
      let mouthSmileRight := default 0 (getScore categories "mouthSmileRight") in
      let eyeSquintLeft := default 0 (getScore categories "eyeSquintLeft") in
      let eyeSquintRight := default 0 (getScore categories "eyeSquintRight") in
      let mouthOpen := Qmin 1 (jawOpen + mouthFunnel * 0.5) in
      let smile := Qmin 1 ((mouthSmileLeft + mouthSmileRight) / 2) in
      let eyeOpen := Qmax 0 (1 - (eyeSquintLeft + eyeSquintRight) / 2) in
      Some {| faceW := 1; mouthOpen := mouthOpen; smile := smile;
              eyeOpen := eyeOpen |}
  end.

Section Geometry.

(** [Math.hypot], which has no rational counterpart, is a parameter of
    the landmark path. *)
Variable hypot : Q -> Q -> Q.

Definition dist2D (a b : Landmark.t) : Q :=
  hypot (Landmark.x a - Landmark.x b) (Landmark.y a - Landmark.y b).

(** [None] stands for the TypeError the source raises when one of the
    indexed points is missing from the array. *)
Definition computeSignals (landmarks : list Landmark.t)
  : option ExpressionSignals :=
  leftEyeOuter ← landmarks !! IDX.leftEyeOuter;
  rightEyeOuter ← landmarks !! IDX.rightEyeOuter;
  let faceW := Qmax (dist2D leftEyeOuter rightEyeOuter) (1 # 1000000) in
  noseTip ← landmarks !! IDX.noseTip;
  chin ← landmarks !! IDX.chin;
  let faceH := Qmax (dist2D noseTip chin) (1 # 1000000) in
  mouthLeft ← landmarks !! IDX.mouthLeft;
  mouthRight ← landmarks !! IDX.mouthRight;
  let mouthWidth := Qmax (dist2D mouthLeft mouthRight) (1 # 1000000) in
  upperLip ← landmarks !! IDX.upperLip;
  lowerLip ← landmarks !! IDX.lowerLip;
  let mouthOpen := dist2D upperLip lowerLip / faceH in
  let smile := mouthWidth / faceW in
  leftEyeInner ← landmarks !! IDX.leftEyeInner;
  let leftEyeWidth := Qmax (dist2D leftEyeOuter leftEyeInner) (1 # 1000000) in
  rightEyeInner ← landmarks !! IDX.rightEyeInner;
  let rightEyeWidth :=
    Qmax (dist2D rightEyeInner rightEyeOuter) (1 # 1000000) in
  leftEyeTop ← landmarks !! IDX.leftEyeTop;
  leftEyeBottom ← landmarks !! IDX.leftEyeBottom;
  let leftEyeOpen := dist2D leftEyeTop leftEyeBottom / leftEyeWidth in
  rightEyeTop ← landmarks !! IDX.rightEyeTop;
  rightEyeBottom ← landmarks !! IDX.rightEyeBottom;
  let rightEyeOpen := dist2D rightEyeTop rightEyeBottom / rightEyeWidth in
  let eyeOpen := (leftEyeOpen + rightEyeOpen) / 2 in
  Some {| faceW := faceW; mouthOpen := mouthOpen; smile := smile;
          eyeOpen := eyeOpen |}.

End Geometry.

Definition defaultThresholds : Thresholds.t :=
  {| Thresholds.tongueOut := 0;
     Thresholds.mouthOpenScream := 0.28;
     Thresholds.smile := 0.62;
     Thresholds.mouthOpenSmileMax := 0.18;
     Thresholds.eyeOpenSquint := 0.12 |}.

(** The four tests of [classifyExpression], one definition per [const]. *)
Definition screamTriggered (signals : ExpressionSignals) (th : Thresholds.t)
  : bool :=
  if Qltb (Thresholds.mouthOpenScream th) 0
  then Qltb (mouthOpen signals) (Thresholds.mouthOpenScream th)
  else Qgtb (mouthOpen signals) (Thresholds.mouthOpenScream th).

Definition smileTriggered (signals : ExpressionSignals) (th : Thresholds.t)
  : bool :=
  if Qltb (Thresholds.smile th) 0
  then Qltb (smile signals) (Thresholds.smile th)
  else Qgtb (smile signals) (Thresholds.smile th).

Definition mouthOk (signals : ExpressionSignals) (th : Thresholds.t) : bool :=
  if Qltb (Thresholds.mouthOpenSmileMax th) 0
  then Qgtb (mouthOpen signals) (Thresholds.mouthOpenSmileMax th)
  else Qltb (mouthOpen signals) (Thresholds.mouthOpenSmileMax th).

Definition squintTriggered (signals : ExpressionSignals) (th : Thresholds.t)
  : bool :=
  if Qltb (Thresholds.eyeOpenSquint th) 0
  then Qltb (eyeOpen signals) (Thresholds.eyeOpenSquint th)
  else Qltb (eyeOpen signals) (Thresholds.eyeOpenSquint th).

Definition classifyExpression (signals : ExpressionSignals)
  (thresholds : Thresholds.t) : ExpressionLabel :=
  if screamTriggered signals thresholds then SCREAM
  else if smileTriggered signals thresholds && mouthOk signals thresholds
  then SMILE
  else if squintTriggered signals thresholds then SQUINT
  else NEUTRAL.

(** ** logic/mapToMeme.ts *)

Definition mapExpressionToMeme (label : ExpressionLabel) : string :=
  match label with
  | FREAKY => "freaky"
  | SCREAM => "scream"
  | SMILE => "smile"
  | SQUINT => "judging"
  | NEUTRAL => "neutral"
  end.

(** ** memes/memeRegistry.ts *)

Module MemeType.
Inductive t := image | video.
End MemeType.

Record MemeAsset := mkAsset {
  key : string;
  type : MemeType.t;
  src : string
}.

Definition DEFAULT_MEME_KEY : string := "neutral".

(** The entries of the object literal [MEMES], in the order written. *)
Definition MEMES_entries : list (string * MemeAsset) :=
  [
    ("neutral", mkAsset "neutral" MemeType.image "/memes/neutral.jpeg");
    ("smile", mkAsset "smile" MemeType.image "/memes/smile.jpg");
    ("grin", mkAsset "grin" MemeType.image "/memes/grin.png");
    ("scream", mkAsset "scream" MemeType.image "/memes/scream.png");
    ("judging", mkAsset "judging" MemeType.image "/memes/judging.jpg");
    ("tilt_left", mkAsset "tilt_left" MemeType.image "/memes/tilt_left.jpg");
    ("tilt_right", mkAsset "tilt_right" MemeType.image "/memes/tilt_right.jpeg");
    ("look_left", mkAsset "look_left" MemeType.image "/memes/look_left.png");
    ("look_right", mkAsset "look_right" MemeType.image "/memes/look_right.jpg");
    ("look_up", mkAsset "look_up" MemeType.image "/memes/look_up.jpeg");
    ("look_down", mkAsset "look_down" MemeType.image "/memes/look_down.png")
  ]%string.

(** The own entries of the object [MEMES]. *)
Definition MEMES : gmap string MemeAsset := list_to_map MEMES_entries.

(** [MEMES[key] ?? MEMES[DEFAULT_MEME_KEY]]: the right operand is taken
    only when the left one is [undefined], which an inherited member is
    not. *)
Definition getMeme (key : string) : Member MemeAsset :=
  match get MEMES key with
  | undefined => get MEMES DEFAULT_MEME_KEY
  | member => member
  end.

(** [Object.values(MEMES)]: the own values in the order of the literal
    (no key of which is an integer index). *)
Definition listMemes : list MemeAsset := MEMES_entries.*2.

(** ** App.tsx: the colour-sampling tongue detector *)

Inductive TrackState := live | ended.

Record Pixel := mkPixel { red : Z; green : Z; blue : Z }.

(** What the callback reads of the video element: its readiness, its
    playback position, the state of the first video track of its stream
    ([None]: no stream or no track), the frame size and the frame's
    pixels. *)
Record HTMLVideoElement := mkVideo {
  readyState : Z;
  currentTime : Q;
  track : option TrackState;
  videoWidth : Z;
  videoHeight : Z;
  pixelAt : Z -> Z -> Pixel
}.

(** Whether [canvas.getContext("2d")] yields a context. *)
Record HTMLCanvasElement := mkCanvas { context2d : bool }.

Record SampleRect := mkRect {
  sampleX : Z;
  sampleY : Z;
  clampedWidth : Z;
  clampedHeight : Z
}.

(** The first half of [getTongueConfidence]: the rectangle handed to
    [drawImage], or [None] where the source returns [null] before
    drawing. *)
Definition sampleRect (video : HTMLVideoElement) (landmarks : list Landmark.t)
  : option SampleRect :=
  mouthLeft ← landmarks !! 61%nat;
  mouthRight ← landmarks !! 291%nat;
  upperLip ← landmarks !! 13%nat;
  lowerLip ← landmarks !! 14%nat;
  let width := videoWidth video in
  let height := videoHeight video in
  if (width =? 0)%Z || (height =? 0)%Z then None else
  let left := Landmark.x mouthLeft * inject_Z width in
  let right := Landmark.x mouthRight * inject_Z width in
  let top := Landmark.y upperLip * inject_Z height in
  let bottom := Landmark.y lowerLip * inject_Z height in
  let mouthWidth := Qmax (right - left) 1 in
  let mouthHeight := Qmax (bottom - top) 1 in
  let sampleWidth := Z.max 6 (Qfloor (mouthWidth * 0.5)) in
  let sampleHeight := Z.max 4 (Qfloor (mouthHeight * 0.6)) in
  let centerX := (left + right) / 2 in
  let centerY := (top + bottom) / 2 + mouthHeight * 0.1 in
  let sampleX := Z.max 0 (Qfloor (centerX - inject_Z sampleWidth / 2)) in
  let sampleY := Z.max 0 (Qfloor (centerY - inject_Z sampleHeight / 2)) in
  let clampedWidth := Z.min sampleWidth (width - sampleX) in
  let clampedHeight := Z.min sampleHeight (height - sampleY) in
  if (clampedWidth <=? 0)%Z || (clampedHeight <=? 0)%Z then None else
  Some {| sampleX := sampleX; sampleY := sampleY;
          clampedWidth := clampedWidth; clampedHeight := clampedHeight |}.

(** [drawImage] of the rectangle followed by [getImageData]: the pixels
    of the rectangle, row by row. *)
Definition getImageData (video : HTMLVideoElement) (r : SampleRect)
  : list Pixel :=
  row ← seqZ 0 (clampedHeight r);
  col ← seqZ 0 (clampedWidth r);
  [pixelAt video (sampleX r + col) (sampleY r + row)].

Definition redDominant (p : Pixel) : bool :=
  let r := inject_Z (red p) in
  let g := inject_Z (green p) in
  let b := inject_Z (blue p) in
  Qgtb r 50 && Qgtb r (g + 10) && Qgtb r (b + 10) && Qgtb (r - (g + b) / 2) 8.

(** The [for] loop over the pixel data with its two counters. *)
Fixpoint countRed (data : list Pixel) (redCount total : Z) : Z * Z :=
  match data with
  | [] => (redCount, total)
  | p :: rest =>
      countRed rest (if redDominant p then redCount + 1 else redCount)%Z
               (total + 1)%Z
  end.

Definition getTongueConfidence (video : HTMLVideoElement)
  (landmarks : list Landmark.t) (canvas : HTMLCanvasElement) : option Q :=
  match sampleRect video landmarks with
  | None => None
  | Some r =>
      if negb (context2d canvas) then None else
      let data := getImageData video r in
      let '(redCount, total) := countRed data 0 0 in
      if (total =? 0)%Z then None
      else Some (inject_Z redCount / inject_Z total)
  end.

(** ** App.tsx: the adaptive range classifier *)

Definition classifyFromRanges (signals min max : ExpressionSignals)
  : ExpressionLabel :=
  let mouthRange := mouthOpen max - mouthOpen min in
  let smileRange := smile max - smile min in
  let eyeRange := eyeOpen max - eyeOpen min in
  if Qltb mouthRange 0.05 && Qltb smileRange 0.05 && Qltb eyeRange 0.05
  then NEUTRAL else
  let screamT := mouthOpen min + mouthRange * 0.7 in
  let smileT := smile min + smileRange * 0.75 in
  let smileMouthMax := mouthOpen min + mouthRange * 0.6 in
  let squintT := eyeOpen min + eyeRange * 0.4 in
  let mouthMargin := mouthRange * 0.08 in
  let smileMargin := smileRange * 0.08 in
  let eyeMargin := eyeRange * 0.08 in
  if Qgtb (mouthOpen signals) (screamT + mouthMargin) then SCREAM
  else if Qgtb (smile signals) (smileT + smileMargin)
          && Qltb (mouthOpen signals) smileMouthMax then SMILE
  else if Qltb (eyeOpen signals) (squintT - eyeMargin * 0.5)
          && Qltb (mouthOpen signals) smileMouthMax then SQUINT
  else NEUTRAL.

(** ** App.tsx: the per-frame callback *)

Record FaceLandmarkerResult := mkResult {
  faceLandmarks : list (list Landmark.t);
  faceBlendshapes : list (list BlendshapeCategory)
}.

(** One invocation of the callback: the detection result and what the
    callback reads from its surroundings while it runs. *)
Record Tick := mkTick {
  videoEl : option HTMLVideoElement;
  performanceNow : Q;
  canvas : HTMLCanvasElement;
  result : FaceLandmarkerResult
}.

Record Calibration := mkCalibration {
  count : Z;
  baseline : ExpressionSignals
}.

Module Extremes.
Record t := mk {
  min : option ExpressionSignals;
  max : option ExpressionSignals
}.
End Extremes.

(** The refs and the state cells of [App] that the callback writes.  The
    cells that feed only the debug read-out ([signals], [signalSource],
    [blendshapeDebug], [calibrated], [status], the six snapshot entries
    of the extremes) are left out. *)
Record Session := mkSession {
  lastDetectedAtRef : option Q;
  lastFaceStateRef : bool;
  lastVideoTimeRef : option Q;
  lastVideoTimeAtRef : Q;
  smootherRef : SignalSmoother.t;
  labelStabilizerRef : LabelStabilizer.t ExpressionLabel;
  tongueHoldUntilRef : Q;
  toothySmileRef : bool;
  calibrationRef : Calibration;
  extremesRef : Extremes.t;
  selectedKey : string;
  faceDetected : bool;
  expressionLabel : ExpressionLabel;
  rawExpressionLabel : ExpressionLabel;
  tongueConfidence : option Q
}.

Definition FACE_HOLD_MS : Q := 500.

(** [new LabelStabilizer<ExpressionLabel>("NEUTRAL", 5, 600)] *)
Definition pipelineStabilizer : LabelStabilizer.t ExpressionLabel :=
  LabelStabilizer.new NEUTRAL (Some 5%Z) (Some 600).

Definition initialSession : Session :=
  {| lastDetectedAtRef := None;
     lastFaceStateRef := false;
     lastVideoTimeRef := None;
     lastVideoTimeAtRef := 0;
     smootherRef := SignalSmoother.new (Some 0.25);
     labelStabilizerRef := pipelineStabilizer;
     tongueHoldUntilRef := 0;
     toothySmileRef := false;
     calibrationRef :=
       {| count := 0;
          baseline := {| faceW := 1; mouthOpen := 0; smile := 0;
                         eyeOpen := 0 |} |};
     extremesRef := {| Extremes.min := None; Extremes.max := None |};
     selectedKey := "neutral";
     faceDetected := false;
     expressionLabel := NEUTRAL;
     rawExpressionLabel := NEUTRAL;
     tongueConfidence := None |}.

(** The block shared by the three early exits (video not ready, stalled
    stream, track not live). *)
Definition forceAbsent (debug : bool) (st : Session) : Session :=
  {| lastDetectedAtRef := None;
     lastFaceStateRef := false;
     lastVideoTimeRef := lastVideoTimeRef st;
     lastVideoTimeAtRef := lastVideoTimeAtRef st;
     smootherRef := smootherRef st;
     labelStabilizerRef := pipelineStabilizer;
     tongueHoldUntilRef := tongueHoldUntilRef st;
     toothySmileRef := toothySmileRef st;
     calibrationRef := calibrationRef st;
     extremesRef := extremesRef st;
     selectedKey := "neutral";
     faceDetected := if lastFaceStateRef st then false else faceDetected st;
     expressionLabel := if debug then NEUTRAL else expressionLabel st;
     rawExpressionLabel := rawExpressionLabel st;
     tongueConfidence := tongueConfidence st |}.

Definition stalled (st : Session) (video : HTMLVideoElement) (now : Q)
  : bool :=
  match lastVideoTimeRef st with
  | None => false
  | Some t =>
      Qeq_bool (currentTime video) t
      && Qgtb (now - lastVideoTimeAtRef st) 600
  end.

Definition noteVideoTime (st : Session) (video : HTMLVideoElement) (now : Q)
  : Session :=
  let moved := match lastVideoTimeRef st with
               | None => true
               | Some t => negb (Qeq_bool (currentTime video) t)
               end in
  {| lastDetectedAtRef := lastDetectedAtRef st;
     lastFaceStateRef := lastFaceStateRef st;
     lastVideoTimeRef :=
       if moved then Some (currentTime video) else lastVideoTimeRef st;
     lastVideoTimeAtRef := if moved then now else lastVideoTimeAtRef st;
     smootherRef := smootherRef st;
     labelStabilizerRef := labelStabilizerRef st;
     tongueHoldUntilRef := tongueHoldUntilRef st;
     toothySmileRef := toothySmileRef st;
     calibrationRef := calibrationRef st;
     extremesRef := extremesRef st;
     selectedKey := selectedKey st;
     faceDetected := faceDetected st;
     expressionLabel := expressionLabel st;
     rawExpressionLabel := rawExpressionLabel st;
     tongueConfidence := tongueConfidence st |}.

Definition trackNotLive (video : HTMLVideoElement) : bool :=
  match track video with
  | Some live => false
  | _ => true
  end.

(** Lines 1024-1047: the presence decision.  The result is the session
    with its two presence refs and [faceDetected] written, and
    [stableDetected]. *)
Definition presence (st : Session) (detected : bool) (now : Q)
  : Session * bool :=
  let lastDetectedAt1 := if detected then Some now else lastDetectedAtRef st in
  let withinHold := match lastDetectedAt1 with
                    | Some t => Qltb (now - t) FACE_HOLD_MS
                    | None => false
                    end in
  let stableDetected := detected || withinHold in
  let lastDetectedAt2 := if negb detected then None else lastDetectedAt1 in
  let changed := negb (eqb stableDetected (lastFaceStateRef st)) in
  ({| lastDetectedAtRef := lastDetectedAt2;
      lastFaceStateRef :=
        if changed then stableDetected else lastFaceStateRef st;
      lastVideoTimeRef := lastVideoTimeRef st;
      lastVideoTimeAtRef := lastVideoTimeAtRef st;
      smootherRef := smootherRef st;
      labelStabilizerRef := labelStabilizerRef st;
      tongueHoldUntilRef := tongueHoldUntilRef st;
      toothySmileRef := toothySmileRef st;
      calibrationRef := calibrationRef st;
      extremesRef := extremesRef st;
      selectedKey := selectedKey st;
      faceDetected := if changed then stableDetected else faceDetected st;
      expressionLabel := expressionLabel st;
      rawExpressionLabel := rawExpressionLabel st;
      tongueConfidence := tongueConfidence st |},
   stableDetected).

(** The exit taken when no face is held, and when neither source yields
    signals. *)
Definition resetToNeutral (st : Session) : Session :=
  {| lastDetectedAtRef := lastDetectedAtRef st;
     lastFaceStateRef := lastFaceStateRef st;
     lastVideoTimeRef := lastVideoTimeRef st;
     lastVideoTimeAtRef := lastVideoTimeAtRef st;
     smootherRef := smootherRef st;
     labelStabilizerRef := pipelineStabilizer;
     tongueHoldUntilRef := tongueHoldUntilRef st;
     toothySmileRef := toothySmileRef st;
     calibrationRef := calibrationRef st;
     extremesRef := extremesRef st;
     selectedKey := "neutral";
     faceDetected := faceDetected st;
     expressionLabel := NEUTRAL;
     rawExpressionLabel := NEUTRAL;
     tongueConfidence := None |}.

(** The signal object as its entries in key order, and the object read
    back from the smoother's output. *)
Definition entriesOf (s : ExpressionSignals) : list (string * Q) :=
  [("faceW", faceW s); ("mouthOpen", mouthOpen s); ("smile", smile s);
   ("eyeOpen", eyeOpen s)]%string.

Definition signalsOf (signals : ExpressionSignals) (output : gmap string Q)
  : ExpressionSignals :=
  {| faceW := default (faceW signals) (output !! "faceW");
     mouthOpen := default (mouthOpen signals) (output !! "mouthOpen");
     smile := default (smile signals) (output !! "smile");
     eyeOpen := default (eyeOpen signals) (output !! "eyeOpen") |}.

(** [smootherRef.current.update(rawSignals)]; [None] is the TypeError
    of [SignalSmoother.update]. *)
Definition smooth (sm : SignalSmoother.t) (rawSignals : ExpressionSignals)
  : option (SignalSmoother.t * ExpressionSignals) :=
  '(sm', output) ← SignalSmoother.update sm (entriesOf rawSignals);
  Some (sm', signalsOf rawSignals output).

(** Lines 1098-1124: the running mean of the first 15 landmark frames. *)
Definition calibrate (calib : Calibration) (smoothSignals : ExpressionSignals)
  : Calibration :=
  if (count calib <? 15)%Z then
    let nextCount := (count calib + 1)%Z in
    let n := inject_Z (count calib) in
    let b := baseline calib in
    {| count := nextCount;
       baseline :=
         {| faceW := (faceW b * n + faceW smoothSignals) / inject_Z nextCount;
            mouthOpen :=
              (mouthOpen b * n + mouthOpen smoothSignals) / inject_Z nextCount;
            smile := (smile b * n + smile smoothSignals) / inject_Z nextCount;
            eyeOpen :=
              (eyeOpen b * n + eyeOpen smoothSignals) / inject_Z nextCount
         |} |}
  else calib.

(** Lines 1159-1185: the running minimum and maximum of each signal. *)
Definition widen (extremes : Extremes.t) (smoothSignals : ExpressionSignals)
  : ExpressionSignals * ExpressionSignals :=
  let min0 := default smoothSignals (Extremes.min extremes) in
  let max0 := default smoothSignals (Extremes.max extremes) in
  ({| faceW := Qmin (faceW min0) (faceW smoothSignals);
      mouthOpen := Qmin (mouthOpen min0) (mouthOpen smoothSignals);
      smile := Qmin (smile min0) (smile smoothSignals);
      eyeOpen := Qmin (eyeOpen min0) (eyeOpen smoothSignals) |},
   {| faceW := Qmax (faceW max0) (faceW smoothSignals);
      mouthOpen := Qmax (mouthOpen max0) (mouthOpen smoothSignals);
      smile := Qmax (smile max0) (smile smoothSignals);
      eyeOpen := Qmax (eyeOpen max0) (eyeOpen smoothSignals) |}).

(** The threshold literal of the blendshape branch. *)
Definition blendThresholds : Thresholds.t :=
  {| Thresholds.tongueOut := 0.5;
     Thresholds.mouthOpenScream := 0.2;
     Thresholds.smile := 0.2;
     Thresholds.mouthOpenSmileMax := 0.25;
     Thresholds.eyeOpenSquint := 0.5 |}.

(** Lines 1134-1143.  [nextLabel] is the value the variable of that name
    holds when the expression is evaluated. *)
Definition tongueProxy (nextLabel : ExpressionLabel)
  (blendDebug : option BlendshapeDebug) : bool :=
  let tongueScore := default 0 (blendDebug ≫= dbg_tongueOut) in
  let mouthFunnel := from_option dbg_mouthFunnel 0 blendDebug in
  let mouthSmile := from_option dbg_mouthSmile 0 blendDebug in
  let jawOpen := from_option dbg_jawOpen 0 blendDebug in
  Qgeb tongueScore 0.2
  || (bool_decide (nextLabel = SCREAM)
      && Qgeb jawOpen 0.35
      && Qgeb mouthFunnel 0.01
      && Qleb mouthSmile 0.45).

(** Lines 1133-1157: the blendshape branch; the new value of
    [nextLabel] and of [toothySmileRef]. *)
Definition blendBranch (nextLabel : ExpressionLabel)
  (blendDebug : option BlendshapeDebug) (smoothSignals : ExpressionSignals)
  : ExpressionLabel * bool :=
  let proxy := tongueProxy nextLabel blendDebug in
  let nextLabel1 := classifyExpression smoothSignals blendThresholds in
  let nextLabel2 := if proxy then FREAKY else nextLabel1 in
  (nextLabel2,
   Qgtb (default 0 (blendDebug ≫= dbg_mouthUpperUp)) 0.25
   || Qgtb (from_option dbg_jawOpen 0 blendDebug) 0.15).

(** Lines 1158-1195: the landmark branch; the new extremes, [nextLabel]
    and [toothySmileRef]. *)
Definition rangeBranch (extremes : Extremes.t)
  (smoothSignals : ExpressionSignals)
  : Extremes.t * ExpressionLabel * bool :=
  let '(min, max) := widen extremes smoothSignals in
  ({| Extremes.min := Some min; Extremes.max := Some max |},
   classifyFromRanges smoothSignals min max,
   Qgtb (mouthOpen smoothSignals)
        (mouthOpen min + (mouthOpen max - mouthOpen min) * 0.6)).

(** Lines 1208-1212: the condition under which the colour detector
    arms the hold. *)
Definition fires (landmarkSignals : ExpressionSignals) (tongueScore : option Q)
  : bool :=
  match tongueScore with
  | Some c => Qgeb c 0.25 && Qgtb (mouthOpen landmarkSignals) 0.1
  | None => false
  end.

(** Lines 1208-1220: arming the hold and applying it; the new value of
    [tongueHoldUntilRef] and of [nextLabel]. *)
Definition tongueHold (holdUntil now : Q) (landmarkSignals : ExpressionSignals)
  (tongueScore : option Q) (nextLabel : ExpressionLabel)
  : Q * ExpressionLabel :=
  let holdUntil1 :=
    if fires landmarkSignals tongueScore then now + 700 else holdUntil in
  (holdUntil1,
   if Qgtb holdUntil1 now && Qgtb (mouthOpen landmarkSignals) 0.08
   then FREAKY else nextLabel).

Definition blendStrength (blendDebug : option BlendshapeDebug) : Q :=
  from_option dbg_jawOpen 0 blendDebug
  + from_option dbg_mouthSmile 0 blendDebug
  + from_option dbg_eyeSquint 0 blendDebug.

(** What lines 1062-1195 leave behind for the rest of the callback: the
    landmark signals, the refs they wrote, and [nextLabel]. *)
Record Classified := mkClassified {
  c_landmarkSignals : option ExpressionSignals;
  c_smoother : SignalSmoother.t;
  c_calibration : Calibration;
  c_extremes : Extremes.t;
  c_toothySmile : bool;
  c_nextLabel : ExpressionLabel
}.

Section Driver.

Variable hypot : Q -> Q -> Q.

(** Whether the closure saw [debug] set. *)
Variable debug : bool.

(** Lines 1062-1195: source selection, smoothing, calibration or range
    update, classification.  [None] is the TypeError of
    [computeSignals] on an incomplete landmark array (or of the
    smoother); [Some None] is the frame without signals from either
    source. *)
Definition classifyFace (st : Session) (tick : Tick)
  : option (option Classified) :=
  let nextLabel := NEUTRAL in
  let categories := head (faceBlendshapes (result tick)) in
  let blendSignals := computeBlendshapeSignals categories in
  let blendDebug := getBlendshapeDebug categories in
  landmarkSignals ←
    match head (faceLandmarks (result tick)) with
    | Some landmarks => Some <$> computeSignals hypot landmarks
    | None => Some None
    end;
  let useBlendshapes :=
    bool_decide (is_Some blendSignals)
    && Qgeb (blendStrength blendDebug) 0.15 in
  let rawSignals := if useBlendshapes then blendSignals else landmarkSignals in
  match rawSignals with
  | None => Some None
  | Some rawSignals =>
      '(smoother, smoothSignals) ← smooth (smootherRef st) rawSignals;
      if useBlendshapes then
        let '(nextLabel, toothy) :=
          blendBranch nextLabel blendDebug smoothSignals in
        Some (Some {| c_landmarkSignals := landmarkSignals;
                      c_smoother := smoother;
                      c_calibration := calibrationRef st;
                      c_extremes := extremesRef st;
                      c_toothySmile := toothy;
                      c_nextLabel := nextLabel |})
      else
        let '(extremes, nextLabel, toothy) :=
          rangeBranch (extremesRef st) smoothSignals in
        Some (Some {| c_landmarkSignals := landmarkSignals;
                      c_smoother := smoother;
                      c_calibration :=
                        calibrate (calibrationRef st) smoothSignals;
                      c_extremes := extremes;
                      c_toothySmile := toothy;
                      c_nextLabel := nextLabel |})
  end.

(** Lines 1197-1282: the colour detector and the hold, the stabilizer
    and the asset key. *)
Definition finishFace (st : Session) (video : HTMLVideoElement)
  (tick : Tick) (c : Classified) : Session :=
  let now := performanceNow tick in
  let '(confidence, holdUntil, nextLabel) :=
    match c_landmarkSignals c, head (faceLandmarks (result tick)) with
    | Some landmarkSignals, Some landmarks =>
        let tongueScore :=
          getTongueConfidence video landmarks (canvas tick) in
        let '(h, l) :=
          tongueHold (tongueHoldUntilRef st) now landmarkSignals
                     tongueScore (c_nextLabel c) in
        (tongueScore, h, l)
    | _, _ => (None, tongueHoldUntilRef st, c_nextLabel c)
    end in
  let '(stabilizer, stableLabel) :=
    LabelStabilizer.update (labelStabilizerRef st) nextLabel now in
  let nextKey :=
    if bool_decide (stableLabel = SMILE) && c_toothySmile c
    then "grin"%string
    else mapExpressionToMeme stableLabel in
  {| lastDetectedAtRef := lastDetectedAtRef st;
     lastFaceStateRef := lastFaceStateRef st;
     lastVideoTimeRef := lastVideoTimeRef st;
     lastVideoTimeAtRef := lastVideoTimeAtRef st;
     smootherRef := c_smoother c;
     labelStabilizerRef := stabilizer;
     tongueHoldUntilRef := holdUntil;
     toothySmileRef := c_toothySmile c;
     calibrationRef := c_calibration c;
     extremesRef := c_extremes c;
     selectedKey := nextKey;
     faceDetected := faceDetected st;
     expressionLabel := stableLabel;
     rawExpressionLabel := nextLabel;
     tongueConfidence := confidence |}.

(** Lines 1062-1282: the frame of a held face. *)
Definition processFace (st : Session) (video : HTMLVideoElement)
  (tick : Tick) : option Session :=
  match classifyFace st tick with
  | None => None
  | Some None => Some (resetToNeutral st)
  | Some (Some c) => Some (finishFace st video tick c)
  end.

(** The callback passed to [startFaceLoop]. *)
Definition onResult (st : Session) (tick : Tick) : option Session :=
  match videoEl tick with
  | None => Some (forceAbsent debug st)
  | Some video =>
      if (readyState video <? 2)%Z then Some (forceAbsent debug st) else
      let now := performanceNow tick in
      if stalled st video now then Some (forceAbsent debug st) else
      let st1 := noteVideoTime st video now in
      if trackNotLive video then Some (forceAbsent debug st1) else
      let detected := (0 <? length (faceLandmarks (result tick)))%nat in
      let '(st2, stableDetected) := presence st1 detected now in
      if negb stableDetected then Some (resetToNeutral st2)
      else processFace st2 video tick
  end.

(** The loop of runLoop.ts: one callback per tick; a callback that
    throws is not followed by another. *)
Fixpoint runLoop (st : Session) (ticks : list Tick) : option Session :=
  match ticks with
  | [] => Some st
  | tick :: rest =>
      match onResult st tick with
      | Some st' => runLoop st' rest
      | None => None
      end
  end.

End Driver.

(** ** Vocabulary of the statements *)

Section StabilizerTraces.

Context {T : Type} `{EqDecision T}.

(** The stabilizer after a sequence of calls. *)
Definition after (s : LabelStabilizer.t T) (calls : list (T * Q))
  : LabelStabilizer.t T :=
  fst (LabelStabilizer.run s calls).

(** How many of the most recent calls carried [label] without
    interruption, the history being given latest call first. *)
Fixpoint streak (label : T) (history : list (T * Q)) : Z :=
  match history with
  | (l, _) :: older =>
      if decide (l = label) then (1 + streak label older)%Z else 0%Z
  | [] => 0%Z
  end.

(** The time of the latest call that changed [current], read off the
    calls alone; [last] where no call changed it. *)
Fixpoint lastChange (s : LabelStabilizer.t T) (calls : list (T * Q))
  (last : Q) : Q :=
  match calls with
  | [] => last
  | (label, nowMs) :: rest =>
      let s1 := fst (LabelStabilizer.update s label nowMs) in
      lastChange s1 rest
        (if decide (LabelStabilizer.current s1 = LabelStabilizer.current s)
         then last else nowMs)
  end.

(** [a, c, a, c, ...] at the given times. *)
Fixpoint alternating (a c : T) (times : list Q) : list (T * Q) :=
  match times with
  | [] => []
  | t :: rest => (a, t) :: alternating c a rest
  end.

(** No call repeats the label of the call before it; [prev] is the
    label before the first call, if any. *)
Fixpoint noRepeat (prev : option T) (calls : list (T * Q)) : Prop :=
  match calls with
  | [] => True
  | (l, _) :: rest => Some l <> prev /\ noRepeat (Some l) rest
  end.

(** The frame counter never exceeds the number of consecutive latest
    calls that carried the pending label. *)
Definition counted (history : list (T * Q)) (s : LabelStabilizer.t T)
  : Prop :=
  match LabelStabilizer.pending s with
  | None => True
  | Some p => (LabelStabilizer.pendingFrames s <= streak p history)%Z
  end.

End StabilizerTraces.

(** [s] is the score of the category called [name]: that of the first
    entry with that name, and 0 where no entry has it. *)
Definition scored (categories : list BlendshapeCategory) (name : string)
  (s : Q) : Prop :=
  (exists before item rest,
      categories = before ++ item :: rest
      /\ Forall (fun e => categoryName e <> name) before
      /\ categoryName item = name
      /\ score item = s)
  \/ (Forall (fun e => categoryName e <> name) categories /\ s = 0).

(** The evaluation of spec 4.9 in its stated order: scream above 70% of
    the mouth range plus an 8% margin; else smile above 75% of the smile
    range plus an 8% margin with the mouth below 60% of its range; else
    squint below 40% of the eye range minus half the 8% margin with the
    same mouth ceiling; else neutral. *)
Section RangeRule.

Variables signals min max : ExpressionSignals.

Let mouthRange := mouthOpen max - mouthOpen min.
Let smileRange := smile max - smile min.
Let eyeRange := eyeOpen max - eyeOpen min.

Definition screamRule : Prop :=
  mouthOpen min + 0.7 * mouthRange + 0.08 * mouthRange < mouthOpen signals.

Definition mouthCeiling : Prop :=
  mouthOpen signals < mouthOpen min + 0.6 * mouthRange.

Definition smileRule : Prop :=
  smile min + 0.75 * smileRange + 0.08 * smileRange < smile signals
  /\ mouthCeiling.

Definition squintRule : Prop :=
  eyeOpen signals < eyeOpen min + 0.4 * eyeRange - 0.04 * eyeRange
  /\ mouthCeiling.

Inductive rangeRule : ExpressionLabel -> Prop :=
| rule_scream : screamRule -> rangeRule SCREAM
| rule_smile : ~ screamRule -> smileRule -> rangeRule SMILE
| rule_squint :
    ~ screamRule -> ~ smileRule -> squintRule -> rangeRule SQUINT
| rule_neutral :
    ~ screamRule -> ~ smileRule -> ~ squintRule -> rangeRule NEUTRAL.

End RangeRule.

(** A pixel is red-dominant, as the colour detector counts them. *)
Definition RedDominant (p : Pixel) : Prop :=
  (50 < red p)%Z /\ (green p + 10 < red p)%Z /\ (blue p + 10 < red p)%Z
  /\ 8 < inject_Z (red p) - (inject_Z (green p) + inject_Z (blue p)) / 2.

(** The frame passes the three liveness checks that precede detection
    handling: video ready, stream not stalled, track live. *)
Definition passesGates (st : Session) (tick : Tick) : Prop :=
  exists video,
    videoEl tick = Some video
    /\ (2 <= readyState video)%Z
    /\ stalled st video (performanceNow tick) = false
    /\ trackNotLive video = false.

(** A face is detected on the frame. *)
Definition detectedIn (tick : Tick) : bool :=
  (0 <? length (faceLandmarks (result tick)))%nat.

(** A frame whose first face, if it has one, carries all the indexed
    landmarks is processed without exception. *)
Definition completeFaces (tick : Tick) : Prop :=
  match head (faceLandmarks (result tick)) with
  | Some landmarks => (386 < length landmarks)%nat
  | None => True
  end.

(** The displayed presence always equals the presence ref. *)
Definition coherent (st : Session) : Prop :=
  lastFaceStateRef st = faceDetected st.

(** The landmark signals of the frame's first face, the confidence the
    colour detector computes on it, and whether that detector fires
    (lines 1208-1212). *)
Definition geometry (hypot : Q -> Q -> Q) (tick : Tick)
  : option ExpressionSignals :=
  landmarks ← head (faceLandmarks (result tick));
  computeSignals hypot landmarks.

Definition colourScore (tick : Tick) : option Q :=
  video ← videoEl tick;
  landmarks ← head (faceLandmarks (result tick));
  getTongueConfidence video landmarks (canvas tick).

Definition colourFires (hypot : Q -> Q -> Q) (tick : Tick) : bool :=
  match geometry hypot tick with
  | Some landmarkSignals => fires landmarkSignals (colourScore tick)
  | None => false
  end.

(** ** Sample frames *)

(** The distance of two points that share a coordinate, which is all the
    sample face below asks of [Math.hypot]. *)
Definition hypotAxis (a b : Q) : Q := Qmax (Qabs a) (Qabs b).

(** A face of 478 landmarks, the lips [mouthGap] apart. *)
Definition facePoint (mouthGap : Q) (i : nat) : Landmark.t :=
  match i with
  | 33 => Landmark.mk 0.3 0.4
  | 263 => Landmark.mk 0.7 0.4
  | 1 => Landmark.mk 0.5 0.5
  | 152 => Landmark.mk 0.5 0.9
  | 61 => Landmark.mk 0.4 0.7
  | 291 => Landmark.mk 0.6 0.7
  | 13 => Landmark.mk 0.5 (0.7 - mouthGap / 2)
  | 14 => Landmark.mk 0.5 (0.7 + mouthGap / 2)
  | 133 => Landmark.mk 0.45 0.4
  | 362 => Landmark.mk 0.55 0.4
  | 159 => Landmark.mk 0.375 0.38
  | 145 => Landmark.mk 0.375 0.42
  | 386 => Landmark.mk 0.625 0.38
  | 374 => Landmark.mk 0.625 0.42
  | _ => Landmark.mk 0.5 0.5
  end%nat.

Definition face (mouthGap : Q) : list Landmark.t :=
  map (facePoint mouthGap) (seq 0 478).

Definition dark : Z -> Z -> Pixel := fun _ _ => mkPixel 20 20 20.
Definition tongueRed : Z -> Z -> Pixel := fun _ _ => mkPixel 200 60 70.

(** A live 640x480 camera whose playback position follows the clock. *)
Definition camera (t : Q) (pixels : Z -> Z -> Pixel) : HTMLVideoElement :=
  mkVideo 4 (t / 1000) (Some live) 640 480 pixels.

Definition frame (t : Q) (pixels : Z -> Z -> Pixel)
  (faces : list (list Landmark.t))
  (blendshapes : list (list BlendshapeCategory)) : Tick :=
  mkTick (Some (camera t pixels)) t (mkCanvas true)
         (mkResult faces blendshapes).

(** Blendshape scores of a wide-open mouth, and of a tongue out. *)
Definition wideOpen : list BlendshapeCategory :=
  [mkCategory "jawOpen" 0.4; mkCategory "mouthFunnel" 0.02;
   mkCategory "mouthSmileLeft" 0.1; mkCategory "mouthSmileRight" 0.1].

Definition tongueShown : list BlendshapeCategory :=
  [mkCategory "jawOpen" 0.2; mkCategory "tongueOut" 0.3].

(** ** Vocabulary of the further properties *)

(** A sequence of [update] calls on one [EmaSmoother]: the final object
    and the value each call returned. *)
Fixpoint emaRun (s : EmaSmoother.t) (inputs : list Q)
  : EmaSmoother.t * list Q :=
  match inputs with
  | [] => (s, [])
  | next :: rest =>
      let '(s1, out) := EmaSmoother.update s next in
      let '(s2, outs) := emaRun s1 rest in
      (s2, out :: outs)
  end.

(** The smoother [SignalSmoother.update] uses for a key: the registered
    one, or a fresh one with the object's alpha. *)
Definition smootherOf (s : SignalSmoother.t) (k : string) : EmaSmoother.t :=
  default (EmaSmoother.new (Some (SignalSmoother.alpha s)))
          (SignalSmoother.smoothers s !! k).

Section StabilizerProgress.

Context {T : Type} `{EqDecision T}.

(** Where the stabilizer stands after [j] calls with the label [l]:
    committed, or still counting with at least [j] frames and, from the
    second call on, fewer than [stableFrames]. *)
Definition counting (s0 : LabelStabilizer.t T) (l : T) (j : nat)
  (s : LabelStabilizer.t T) : Prop :=
  LabelStabilizer.stableFrames s = LabelStabilizer.stableFrames s0
  /\ (LabelStabilizer.current s = l
      \/ (LabelStabilizer.current s = LabelStabilizer.current s0
          /\ LabelStabilizer.pending s = Some l
          /\ (Z.of_nat j <= LabelStabilizer.pendingFrames s)%Z
          /\ LabelStabilizer.lastSwitchAt s = LabelStabilizer.lastSwitchAt s0
          /\ LabelStabilizer.cooldownMs s = LabelStabilizer.cooldownMs s0
          /\ ((2 <= j)%nat -> (LabelStabilizer.pendingFrames s
                              < LabelStabilizer.stableFrames s0)%Z))).

End StabilizerProgress.

(** The calibration accumulator after the given smoothed landmark
    frames, in order. *)
Definition calibrateAll (calib : Calibration) (frames : list ExpressionSignals)
  : Calibration :=
  foldl calibrate calib frames.

(** [a] is no greater than [b], signal by signal. *)
Definition signalsLe (a b : ExpressionSignals) : Prop :=
  faceW a <= faceW b /\ mouthOpen a <= mouthOpen b
  /\ smile a <= smile b /\ eyeOpen a <= eyeOpen b.

(** The selected asset key agrees with the displayed label: it is
    "neutral", or the key of the label, or "grin" for a toothy SMILE. *)
Definition keyConsistent (st : Session) : Prop :=
  selectedKey st = "neutral"%string
  \/ selectedKey st = mapExpressionToMeme (expressionLabel st)
  \/ (selectedKey st = "grin"%string
      /\ expressionLabel st = SMILE /\ toothySmileRef st = true).

(** The session's stabilizer shows NEUTRAL, has the pipeline's five
    frames, and has counted at most [k] frames of a candidate. *)
Definition settled (k : Z) (st : Session) : Prop :=
  LabelStabilizer.current (labelStabilizerRef st) = NEUTRAL
  /\ LabelStabilizer.stableFrames (labelStabilizerRef st) = 5%Z
  /\ (0 <= LabelStabilizer.pendingFrames (labelStabilizerRef st) <= k)%Z.

(** ** vision/runLoop.ts *)

Module FaceLoop.

(** The number [fps] and what is computed from it: a finite number is a
    rational ([Finite 0] is +0); -0, the infinities and NaN are apart. *)
Inductive number :=
  | NaN
  | PosInfinity
  | NegInfinity
  | NegZero
  | Finite (q : Q).

(** [1000 / fps] *)
Definition perSecond (fps : number) : number :=
  match fps with
  | NaN => NaN
  | PosInfinity => Finite 0
  | NegInfinity => NegZero
  | NegZero => NegInfinity
  | Finite q => if Qeq_bool q 0 then PosInfinity else Finite (1000 / q)
  end.

(** [Math.round]: the nearest integer, a half going up. *)
Definition round (x : number) : number :=
  match x with
  | Finite q => Finite (inject_Z (Qfloor (q + (1 # 2))))
  | other => other
  end.

(** [Math.max(1, x)] *)
Definition atLeastOne (x : number) : number :=
  match x with
  | NaN => NaN
  | PosInfinity => PosInfinity
  | NegInfinity | NegZero => Finite 1
  | Finite q => Finite (Qmax 1 q)
  end.

(** The closure of [startFaceLoop] together with what it touches of the
    window: the timers that are set and not yet fired or cleared, each
    with its delay, and the id the next [setTimeout] returns.  [cycles]
    counts the detection cycles that were started. *)
Record t := mk {
  stopped : bool;
  timeoutId : option nat;
  intervalMs : number;
  timers : gmap nat number;
  nextTimer : nat;
  cycles : nat
}.

(** [timeoutId = window.setTimeout(tick, intervalMs)] *)
Definition schedule (l : t) : t :=
  {| stopped := stopped l;
     timeoutId := Some (nextTimer l);
     intervalMs := intervalMs l;
     timers := <[nextTimer l := intervalMs l]> (timers l);
     nextTimer := S (nextTimer l);
     cycles := cycles l |}.

(** [startFaceLoop({ fps = 12, ... })] in a window whose next timer id
    is [next]. *)
Definition startFaceLoop (fps : option number) (next : nat) : t :=
  schedule {| stopped := false;
              timeoutId := None;
              intervalMs :=
                atLeastOne (round (perSecond (default (Finite 12) fps)));
              timers := ∅;
              nextTimer := next;
              cycles := 0 |}.

(** The function [startFaceLoop] returns. *)
Definition stop (l : t) : t :=
  {| stopped := true;
     timeoutId := timeoutId l;
     intervalMs := intervalMs l;
     timers := match timeoutId l with
               | Some id => delete id (timers l)
               | None => timers l
               end;
     nextTimer := nextTimer l;
     cycles := cycles l |}.

(** What detection and the callback do to the loop during a cycle:
    whether they call the function [startFaceLoop] returned, and whether
    they return rather than throw. *)
Record cycle := mkCycle { callsStop : bool; completes : bool }.

(** [tick]: a cycle that returns is followed by [setTimeout], stopped
    or not. *)
Definition tick (c : cycle) (l : t) : t :=
  if stopped l then l else
  let l1 := {| stopped := stopped l; timeoutId := timeoutId l;
               intervalMs := intervalMs l; timers := timers l;
               nextTimer := nextTimer l; cycles := S (cycles l) |} in
  let l2 := if callsStop c then stop l1 else l1 in
  if completes c then schedule l2 else l2.

(** The window fires the timer [id], if it is still set. *)
Definition timerFires (id : nat) (c : cycle) (l : t) : t :=
  match timers l !! id with
  | None => l
  | Some _ =>
      tick c
           {| stopped := stopped l; timeoutId := timeoutId l;
              intervalMs := intervalMs l; timers := delete id (timers l);
              nextTimer := nextTimer l; cycles := cycles l |}
  end.

Inductive event := TimerFires (id : nat) (c : cycle) | Stop.

Definition step (l : t) (e : event) : t :=
  match e with
  | TimerFires id c => timerFires id c l
  | Stop => stop l
  end.

Definition run (l : t) (events : list event) : t := foldl step l events.

End FaceLoop.

(** At most one timer is set: the one the closure remembers, with the
    loop's interval. *)
Definition oneTimer (l : FaceLoop.t) : Prop :=
  FaceLoop.timers l = ∅
  \/ exists id, FaceLoop.timeoutId l = Some id
                /\ FaceLoop.timers l = {[id := FaceLoop.intervalMs l]}.

(** The loop is stopped and no timer is set. *)
Definition halted (l : FaceLoop.t) : Prop :=
  FaceLoop.stopped l = true /\ FaceLoop.timers l = ∅.

(** The frame has no video element, or one whose playback position is
    [c0]. *)
Definition stillAt (c0 : Q) (tick : Tick) : Prop :=
  match videoEl tick with
  | None => True
  | Some video => Qeq_bool (currentTime video) c0 = true
  end.

(** * Theorems *)

(** ** Comparisons *)

Lemma Qltb_lt a b : Qltb a b = true <-> a < b.
Proof.
  unfold Qltb. rewrite negb_true_iff, <- not_true_iff_false, Qle_bool_iff.
  split; [apply Qnot_le_lt | apply Qlt_not_le].
Qed.

Lemma Qltb_ge a b : Qltb a b = false <-> b <= a.
Proof. unfold Qltb. rewrite negb_false_iff. apply Qle_bool_iff. Qed.

Lemma Qgtb_gt a b : Qgtb a b = true <-> b < a.
Proof. apply Qltb_lt. Qed.

Lemma Qgtb_le a b : Qgtb a b = false <-> a <= b.
Proof. apply Qltb_ge. Qed.

Lemma Qgeb_ge a b : Qgeb a b = true <-> b <= a.
Proof. apply Qle_bool_iff. Qed.

Lemma Qgeb_lt a b : Qgeb a b = false <-> a < b.
Proof.
  unfold Qgeb. rewrite <- not_true_iff_false, Qle_bool_iff.
  split; [apply Qnot_le_lt | apply Qlt_not_le].
Qed.

Lemma Qleb_le a b : Qleb a b = true <-> a <= b.
Proof. apply Qle_bool_iff. Qed.

(** ** LabelStabilizer *)

Section StabilizerFacts.

Context {T : Type} `{EqDecision T}.
Implicit Types (s : LabelStabilizer.t T) (l : T) (t : Q).

Import LabelStabilizer.

Ltac split_update :=
  unfold update;
  repeat (case_decide || case_match); simpl in *; subst; simpl in *.

Lemma update_params s l t :
  stableFrames (fst (update s l t)) = stableFrames s
  /\ cooldownMs (fst (update s l t)) = cooldownMs s.
Proof. split_update; auto. Qed.

(** [current] moves only in the commit branch. *)
Lemma update_changes s l t :
  current (fst (update s l t)) <> current s ->
  pending s = Some l
  /\ (stableFrames s <= pendingFrames s + 1)%Z
  /\ cooldownMs s <= t - lastSwitchAt s
  /\ current (fst (update s l t)) = l
  /\ lastSwitchAt (fst (update s l t)) = t.
Proof.
  unfold update.
  destruct (decide (l = current s)) as [->|Hne]; simpl; [congruence|].
  destruct (decide (Some l <> pending s)) as [Hp|Hp]; simpl; [congruence|].
  apply dec_stable in Hp.
  destruct (_ && _) eqn:Hc; simpl; [|congruence].
  apply andb_true_iff in Hc as [Hf Hq].
  apply Z.leb_le in Hf. apply Qgeb_ge in Hq. auto.
Qed.

Lemma update_keeps s l t :
  current (fst (update s l t)) = current s ->
  lastSwitchAt (fst (update s l t)) = lastSwitchAt s.
Proof. split_update; congruence. Qed.

Lemma update_returns_current s l t :
  snd (update s l t) = current (fst (update s l t)).
Proof. split_update; auto. Qed.

Lemma run_snoc s calls l t :
  run s (calls ++ [(l, t)])
  = (fst (update (after s calls) l t),
     snd (run s calls) ++ [snd (update (after s calls) l t)]).
Proof.
  unfold after. revert s.
  induction calls as [|[l' t'] calls IH]; intros s; simpl.
  - destruct (update s l t); reflexivity.
  - destruct (update s l' t') as [s1 o1]. rewrite IH.
    destruct (run s1 calls); reflexivity.
Qed.

Lemma after_snoc s calls l t :
  after s (calls ++ [(l, t)]) = fst (update (after s calls) l t).
Proof. unfold after at 1. rewrite run_snoc. reflexivity. Qed.

Lemma after_cons s calls l t :
  after s ((l, t) :: calls) = after (fst (update s l t)) calls.
Proof.
  unfold after. simpl. destruct (update s l t) as [s1 o1]. simpl.
  destruct (run s1 calls); reflexivity.
Qed.

Lemma after_params s calls :
  stableFrames (after s calls) = stableFrames s
  /\ cooldownMs (after s calls) = cooldownMs s.
Proof.
  revert s. induction calls as [|[l t] calls IH]; intros s; [easy|].
  rewrite after_cons. destruct (IH (fst (update s l t))) as [-> ->].
  apply update_params.
Qed.

Lemma streak_nonneg l history : (0 <= streak l history)%Z.
Proof.
  induction history as [|[l' t'] h IH]; simpl; [lia|].
  case_decide; lia.
Qed.

Lemma counted_update history s l t :
  counted history s -> counted ((l, t) :: history) (fst (update s l t)).
Proof.
  unfold counted, update.
  destruct (decide (l = current s)); simpl; [easy|].
  destruct (decide (Some l <> pending s)) as [Hp|Hp]; simpl.
  - intros _. rewrite decide_True by reflexivity.
    pose proof (streak_nonneg l history). lia.
  - apply dec_stable in Hp. rewrite <- Hp.
    destruct (_ && _); simpl; [easy|].
    rewrite decide_True by reflexivity. lia.
Qed.

Lemma counted_after (initial : T) sf cd calls :
  counted (reverse calls) (after (new initial sf cd) calls).
Proof.
  induction calls as [|[l t] calls IH] using rev_ind; [exact I|].
  rewrite after_snoc, reverse_snoc. apply counted_update, IH.
Qed.

Lemma lastSwitchAt_after s calls :
  lastSwitchAt (after s calls) = lastChange s calls (lastSwitchAt s).
Proof.
  revert s. induction calls as [|[l t] calls IH]; intros s; [reflexivity|].
  rewrite after_cons, IH. simpl. f_equal.
  case_decide as Hc.
  - apply update_keeps, Hc.
  - apply update_changes in Hc. tauto.
Qed.

(** A sequence that never repeats a label commits nothing. *)
Lemma noRepeat_holds s prev calls :
  pending s = None \/ pending s = prev ->
  noRepeat prev calls ->
  Forall (eq (current s)) (snd (run s calls))
  /\ current (after s calls) = current s.
Proof.
  revert s prev. induction calls as [|[l t] calls IH]; intros s prev Hp Hn.
  - split; [constructor | reflexivity].
  - destruct Hn as [Hl Hn]. rewrite after_cons. simpl.
    assert (Hstep : current (fst (update s l t)) = current s
                    /\ snd (update s l t) = current s
                    /\ (pending (fst (update s l t)) = None
                        \/ pending (fst (update s l t)) = Some l)).
    { unfold update.
      destruct (decide (l = current s)); simpl; [auto|].
      destruct (decide (Some l <> pending s)) as [Hq|Hq]; simpl; [auto|].
      apply dec_stable in Hq. destruct Hp as [Hp|Hp]; congruence. }
    destruct Hstep as (Hc & Ho & Hp').
    destruct (IH _ _ Hp' Hn) as [Hall Hcur].
    destruct (update s l t) as [s1 o1]; simpl in *.
    destruct (run s1 calls) as [s2 outs]; simpl in *.
    subst o1. rewrite Hc in Hall, Hcur. split; [constructor|]; auto.
Qed.

Lemma alternating_noRepeat (a c : T) prev times :
  a <> c -> Some a <> prev -> noRepeat prev (alternating a c times).
Proof.
  revert a c prev. induction times as [|t times IH]; intros a c prev Hac Hp.
  - exact I.
  - simpl. split; [exact Hp|]. apply IH; congruence.
Qed.

(** Five calls with one label on a fresh stabilizer with the
    pipeline's parameters. *)
Lemma five_in_a_row (initial a : T) t1 t2 t3 t4 t5 :
  a <> initial -> 600 <= t5 ->
  snd (run (new initial (Some 5%Z) (Some 600))
           [(a, t1); (a, t2); (a, t3); (a, t4); (a, t5)])
  = [initial; initial; initial; initial; a].
Proof.
  intros Hne Ht. assert (Hq : Qgeb (t5 - 0) 600 = true).
  { apply Qgeb_ge. lra. }
  simpl. unfold update, new; simpl.
  repeat (rewrite ?decide_False by congruence;
          rewrite ?decide_True by congruence; simpl).
  rewrite Hq. reflexivity.
Qed.

End StabilizerFacts.

(** C4.  On a freshly constructed stabilizer, a call changes [current]
    only if its label is the pending candidate, at least [stableFrames]
    consecutive latest calls (this one included) carried that label, and
    its time is at least [cooldownMs] after the latest change (after 0 if
    there was none).  With 5 frames and 600 ms, five calls with a label
    [a] other than the initial one, the fifth at or after 600 ms, return
    the initial label four times and then [a]; calls alternating between
    two distinct labels always return the initial label. *)
Theorem stabilizer_commit_invariant {T : Type} `{EqDecision T}
  (initial a c : T) (sf : option Z) (cd : option Q) (t1 t2 t3 t4 t5 : Q) :
  a <> initial -> a <> c -> 600 <= t5 ->
  let s0 := LabelStabilizer.new initial sf cd in
  (forall pre l t,
      let s := after s0 pre in
      let s' := fst (LabelStabilizer.update s l t) in
      LabelStabilizer.current s' <> LabelStabilizer.current s ->
      LabelStabilizer.current s' = l
      /\ LabelStabilizer.pending s = Some l
      /\ (LabelStabilizer.stableFrames s0
          <= streak l (reverse (pre ++ [(l, t)])))%Z
      /\ LabelStabilizer.cooldownMs s0 <= t - lastChange s0 pre 0)
  /\ snd (LabelStabilizer.run
            (LabelStabilizer.new initial (Some 5%Z) (Some 600))
            [(a, t1); (a, t2); (a, t3); (a, t4); (a, t5)])
     = [initial; initial; initial; initial; a]
  /\ (forall times,
         Forall (eq initial)
                (snd (LabelStabilizer.run s0 (alternating a c times)))
         /\ LabelStabilizer.current (after s0 (alternating a c times))
            = initial).
Proof.
  intros Hai Hac Ht s0. subst s0. split; [|split].
  - intros pre l t s s' Hch. subst s s'.
    destruct (update_changes _ l t Hch) as (Hp & Hf & Hq & Hc & _).
    destruct (after_params (LabelStabilizer.new initial sf cd) pre)
      as [Hsf Hcd].
    pose proof (counted_after initial sf cd pre) as Hcount.
    unfold counted in Hcount. rewrite Hp in Hcount.
    rewrite Hsf in Hf. rewrite Hcd, lastSwitchAt_after in Hq.
    repeat split; auto.
    rewrite reverse_snoc. simpl in *. rewrite decide_True by reflexivity. lia.
  - apply five_in_a_row; assumption.
  - intros times.
    apply (noRepeat_holds (LabelStabilizer.new initial sf cd) None);
      [left; reflexivity|].
    apply alternating_noRepeat; [assumption | discriminate].
Qed.

(** Witness of C4: labels SMILE and SCREAM on a NEUTRAL stabilizer. *)
Lemma stabilizer_commit_invariant_witness :
  snd (LabelStabilizer.run
         (LabelStabilizer.new NEUTRAL (Some 5%Z) (Some 600))
         [(SMILE, 610); (SMILE, 690); (SMILE, 770); (SMILE, 850); (SMILE, 930)])
  = [NEUTRAL; NEUTRAL; NEUTRAL; NEUTRAL; SMILE].
Proof.
  refine (proj1 (proj2 (stabilizer_commit_invariant
                          NEUTRAL SMILE SCREAM (Some 5%Z) (Some 600)
                          610 690 770 850 930 _ _ _)));
    [discriminate | discriminate | vm_compute; discriminate].
Defined.

(** C5, as stated, fails: a stabilizer constructed without the two
    optional arguments does not have 5 frames and 600 ms. *)
Lemma default_stabilizer_is_not_5_600 :
  ~ (LabelStabilizer.stableFrames (LabelStabilizer.new NEUTRAL None None) = 5%Z
     /\ LabelStabilizer.cooldownMs (LabelStabilizer.new NEUTRAL None None)
        == 600).
Proof. intros [Hf _]. vm_compute in Hf. discriminate Hf. Qed.

(** C5, amended.  A stabilizer constructed without the two optional
    arguments has 4 frames and 500 ms, so that four calls with a label
    other than the initial one, the fourth at or after 500 ms, already
    commit; 5 and 600 are the arguments the pipeline passes, at start
    and at every reset. *)
Theorem stabilizer_default_construction {T : Type} `{EqDecision T}
  (initial a : T) (t1 t2 t3 t4 : Q) :
  a <> initial -> 500 <= t4 ->
  LabelStabilizer.stableFrames (LabelStabilizer.new initial None None) = 4%Z
  /\ LabelStabilizer.cooldownMs (LabelStabilizer.new initial None None) = 500
  /\ snd (LabelStabilizer.run (LabelStabilizer.new initial None None)
            [(a, t1); (a, t2); (a, t3); (a, t4)])
     = [initial; initial; initial; a]
  /\ LabelStabilizer.stableFrames (labelStabilizerRef initialSession) = 5%Z
  /\ LabelStabilizer.cooldownMs (labelStabilizerRef initialSession) = 600
  /\ (forall debug st,
         labelStabilizerRef (forceAbsent debug st)
         = LabelStabilizer.new NEUTRAL (Some 5%Z) (Some 600)
         /\ labelStabilizerRef (resetToNeutral st)
            = LabelStabilizer.new NEUTRAL (Some 5%Z) (Some 600)).
Proof.
  intros Hne Ht. repeat split.
  assert (Hq : Qgeb (t4 - 0) 500 = true) by (apply Qgeb_ge; lra).
  simpl. unfold LabelStabilizer.update, LabelStabilizer.new; simpl.
  repeat (rewrite ?decide_False by congruence;
          rewrite ?decide_True by congruence; simpl).
  rewrite Hq. reflexivity.
Qed.

(** Witness of the amended C5. *)
Lemma stabilizer_default_construction_witness :
  snd (LabelStabilizer.run (LabelStabilizer.new NEUTRAL None None)
         [(SMILE, 260); (SMILE, 340); (SMILE, 420); (SMILE, 500)])
  = [NEUTRAL; NEUTRAL; NEUTRAL; SMILE].
Proof.
  refine (proj1 (proj2 (proj2 (stabilizer_default_construction
                                 NEUTRAL SMILE 260 340 420 500 _ _))));
    [discriminate | vm_compute; discriminate].
Defined.

(** ** The threshold classifier *)

Lemma screamTriggered_negative signals th :
  Thresholds.mouthOpenScream th < 0 ->
  screamTriggered signals th = true
  <-> mouthOpen signals < Thresholds.mouthOpenScream th.
Proof.
  intros Hs. unfold screamTriggered.
  apply Qltb_lt in Hs. rewrite Hs. apply Qltb_lt.
Qed.

Lemma screamTriggered_positive signals th :
  0 <= Thresholds.mouthOpenScream th ->
  screamTriggered signals th = true
  <-> Thresholds.mouthOpenScream th < mouthOpen signals.
Proof.
  intros Hs. unfold screamTriggered.
  apply Qltb_ge in Hs. rewrite Hs. apply Qgtb_gt.
Qed.

Lemma smileTriggered_negative signals th :
  Thresholds.smile th < 0 ->
  smileTriggered signals th = true <-> smile signals < Thresholds.smile th.
Proof.
  intros Hs. unfold smileTriggered.
  apply Qltb_lt in Hs. rewrite Hs. apply Qltb_lt.
Qed.

Lemma smileTriggered_positive signals th :
  0 <= Thresholds.smile th ->
  smileTriggered signals th = true <-> Thresholds.smile th < smile signals.
Proof.
  intros Hs. unfold smileTriggered.
  apply Qltb_ge in Hs. rewrite Hs. apply Qgtb_gt.
Qed.

Lemma mouthOk_negative signals th :
  Thresholds.mouthOpenSmileMax th < 0 ->
  mouthOk signals th = true
  <-> Thresholds.mouthOpenSmileMax th < mouthOpen signals.
Proof.
  intros Hs. unfold mouthOk.
  apply Qltb_lt in Hs. rewrite Hs. apply Qgtb_gt.
Qed.

Lemma mouthOk_positive signals th :
  0 <= Thresholds.mouthOpenSmileMax th ->
  mouthOk signals th = true
  <-> mouthOpen signals < Thresholds.mouthOpenSmileMax th.
Proof.
  intros Hs. unfold mouthOk.
  apply Qltb_ge in Hs. rewrite Hs. apply Qltb_lt.
Qed.

Lemma squintTriggered_any_sign signals th :
  squintTriggered signals th = true
  <-> eyeOpen signals < Thresholds.eyeOpenSquint th.
Proof. unfold squintTriggered. destruct (Qltb _ 0); apply Qltb_lt. Qed.

(** C6.  The squint test compares [eyeOpen < eyeOpenSquint] whatever the
    sign of the threshold: with the default thresholds and
    [eyeOpenSquint = -0.12], signals with [eyeOpen = 0.5], above the
    threshold, are classified NEUTRAL and not SQUINT, although the smile
    ceiling, the other less-than test, does trigger above a negative
    threshold. *)
Theorem squint_threshold_sign_not_flipped :
  let signals :=
    {| faceW := 1; mouthOpen := 0.1; smile := 0.1; eyeOpen := 0.5 |} in
  let th :=
    {| Thresholds.tongueOut := 0;
       Thresholds.mouthOpenScream := 0.28;
       Thresholds.smile := 0.62;
       Thresholds.mouthOpenSmileMax := 0.18;
       Thresholds.eyeOpenSquint := -0.12 |} in
  let th' :=
    {| Thresholds.tongueOut := 0;
       Thresholds.mouthOpenScream := 0.28;
       Thresholds.smile := 0.05;
       Thresholds.mouthOpenSmileMax := -0.18;
       Thresholds.eyeOpenSquint := 0.12 |} in
  Thresholds.eyeOpenSquint th < 0
  /\ Thresholds.eyeOpenSquint th < eyeOpen signals
  /\ squintTriggered signals th = false
  /\ classifyExpression signals th = NEUTRAL
  /\ Thresholds.mouthOpenSmileMax th' < mouthOpen signals
  /\ mouthOk signals th' = true
  /\ classifyExpression signals th' = SMILE.
Proof. vm_compute. repeat split; discriminate. Qed.

(** ** Blendshape signals *)

Lemma getScore_absent categories name :
  Forall (fun e => categoryName e <> name) categories ->
  getScore categories name = None.
Proof.
  unfold getScore. induction 1 as [|e es Hne _ IH]; simpl; [reflexivity|].
  rewrite bool_decide_eq_false_2 by exact Hne. exact IH.
Qed.

Lemma getScore_scored categories name s :
  scored categories name s -> default 0 (getScore categories name) = s.
Proof.
  intros [(before & item & rest & -> & Hb & Hn & Hs) | [Hall ->]].
  - unfold getScore. induction Hb as [|e es Hne _ IH]; simpl.
    + rewrite bool_decide_eq_true_2 by exact Hn. exact Hs.
    + rewrite bool_decide_eq_false_2 by exact Hne. exact IH.
  - rewrite getScore_absent by exact Hall. reflexivity.
Qed.

(** Every name has a score in the sense of [scored]. *)
Lemma scored_total categories name :
  scored categories name (default 0 (getScore categories name)).
Proof.
  induction categories as [|e es IH].
  - right. split; [constructor | reflexivity].
  - destruct (decide (categoryName e = name)) as [He|He].
    + left. exists [], e, es. unfold getScore. simpl.
      rewrite bool_decide_eq_true_2 by exact He. auto.
    + assert (Hg : getScore (e :: es) name = getScore es name).
      { unfold getScore. simpl.
        rewrite bool_decide_eq_false_2 by exact He. reflexivity. }
      rewrite Hg.
      destruct IH as [(before & item & rest & -> & Hb & Hn & Hs) | [Hall H0]].
      * left. exists (e :: before), item, rest. auto.
      * right. split; [constructor; assumption | exact H0].
Qed.

(** C8.  [computeBlendshapeSignals] returns nothing exactly when no
    categories are supplied (none at all, or an empty list); otherwise,
    each named category scoring what its first entry says and 0 when it
    is missing, it returns mouthOpen = min(1, jawOpen + 0.5 mouthFunnel),
    smile = min(1, mean of the two smile scores), eyeOpen = max(0, 1 -
    mean of the two squint scores) and a face width of 1. *)
Theorem blendshape_signal_derivation
  (categories : option (list BlendshapeCategory)) :
  (computeBlendshapeSignals categories = None
   <-> categories = None \/ categories = Some [])
  /\ (forall cats jawOpen mouthFunnel smileLeft smileRight squintLeft
             squintRight,
         categories = Some cats -> cats <> [] ->
         scored cats "jawOpen" jawOpen ->
         scored cats "mouthFunnel" mouthFunnel ->
         scored cats "mouthSmileLeft" smileLeft ->
         scored cats "mouthSmileRight" smileRight ->
         scored cats "eyeSquintLeft" squintLeft ->
         scored cats "eyeSquintRight" squintRight ->
         exists signals,
           computeBlendshapeSignals categories = Some signals
           /\ mouthOpen signals == Qmin 1 (jawOpen + 0.5 * mouthFunnel)
           /\ smile signals == Qmin 1 ((smileLeft + smileRight) / 2)
           /\ eyeOpen signals == Qmax 0 (1 - (squintLeft + squintRight) / 2)
           /\ faceW signals == 1).
Proof.
  split.
  - destruct categories as [[|e es]|]; simpl; split;
      try discriminate; auto; intros [?|?]; discriminate.
  - intros cats jo mf sl sr el er -> Hne Hjo Hmf Hsl Hsr Hel Her.
    destruct cats as [|e es]; [congruence|].
    eexists. split; [reflexivity|]. simpl.
    rewrite (getScore_scored _ _ _ Hjo), (getScore_scored _ _ _ Hmf),
      (getScore_scored _ _ _ Hsl), (getScore_scored _ _ _ Hsr),
      (getScore_scored _ _ _ Hel), (getScore_scored _ _ _ Her).
    repeat split; try reflexivity.
    apply Q.min_compat; [reflexivity | ring].
Qed.

(** Witness of C8: a frame scoring jawOpen 0.4 and mouthFunnel 0.02. *)
Lemma blendshape_signal_derivation_witness :
  exists signals,
    computeBlendshapeSignals
      (Some [mkCategory "jawOpen" 0.4; mkCategory "mouthFunnel" 0.02])
    = Some signals
    /\ mouthOpen signals == Qmin 1 (0.4 + 0.5 * 0.02)
    /\ smile signals == Qmin 1 ((0 + 0) / 2)
    /\ eyeOpen signals == Qmax 0 (1 - (0 + 0) / 2)
    /\ faceW signals == 1.
Proof.
  apply (proj2 (blendshape_signal_derivation
                  (Some [mkCategory "jawOpen" 0.4;
                         mkCategory "mouthFunnel" 0.02]))
               [mkCategory "jawOpen" 0.4; mkCategory "mouthFunnel" 0.02]);
    [reflexivity | discriminate | ..].
  - left. exists [], (mkCategory "jawOpen" 0.4), [mkCategory "mouthFunnel" 0.02].
    repeat split. constructor.
  - left. exists [mkCategory "jawOpen" 0.4], (mkCategory "mouthFunnel" 0.02), [].
    repeat split. repeat constructor. discriminate.
  - right. split; [repeat constructor; discriminate | reflexivity].
  - right. split; [repeat constructor; discriminate | reflexivity].
  - right. split; [repeat constructor; discriminate | reflexivity].
  - right. split; [repeat constructor; discriminate | reflexivity].
Defined.

(** ** The adaptive range classifier *)

Section RangeFacts.

Variables signals min max : ExpressionSignals.

Lemma scream_test :
  Qgtb (mouthOpen signals)
       (mouthOpen min + (mouthOpen max - mouthOpen min) * 0.7
        + (mouthOpen max - mouthOpen min) * 0.08) = true
  <-> screamRule signals min max.
Proof. rewrite Qgtb_gt. unfold screamRule. split; intros; lra. Qed.

Lemma ceiling_test :
  Qltb (mouthOpen signals)
       (mouthOpen min + (mouthOpen max - mouthOpen min) * 0.6) = true
  <-> mouthCeiling signals min max.
Proof. rewrite Qltb_lt. unfold mouthCeiling. split; intros; lra. Qed.

Lemma smile_test :
  Qgtb (smile signals)
       (smile min + (smile max - smile min) * 0.75
        + (smile max - smile min) * 0.08)
  && Qltb (mouthOpen signals)
          (mouthOpen min + (mouthOpen max - mouthOpen min) * 0.6) = true
  <-> smileRule signals min max.
Proof.
  rewrite andb_true_iff, ceiling_test, Qgtb_gt. unfold smileRule.
  split; intros [? ?]; split; auto; lra.
Qed.

Lemma squint_test :
  Qltb (eyeOpen signals)
       (eyeOpen min + (eyeOpen max - eyeOpen min) * 0.4
        - (eyeOpen max - eyeOpen min) * 0.08 * 0.5)
  && Qltb (mouthOpen signals)
          (mouthOpen min + (mouthOpen max - mouthOpen min) * 0.6) = true
  <-> squintRule signals min max.
Proof.
  rewrite andb_true_iff, ceiling_test, Qltb_lt. unfold squintRule.
  split; intros [? ?]; split; auto; lra.
Qed.

Lemma rangeRule_functional l l' :
  rangeRule signals min max l -> rangeRule signals min max l' -> l = l'.
Proof. destruct 1; destruct 1; tauto. Qed.

(** Past the gate, the code is the stated first-match evaluation. *)
Lemma classifyFromRanges_normal :
  Qltb (mouthOpen max - mouthOpen min) 0.05
  && Qltb (smile max - smile min) 0.05
  && Qltb (eyeOpen max - eyeOpen min) 0.05 = false ->
  rangeRule signals min max (classifyFromRanges signals min max).
Proof.
  intros Hgate. unfold classifyFromRanges. rewrite Hgate.
  destruct (Qgtb (mouthOpen signals) _) eqn:Hsc.
  { apply rule_scream, scream_test, Hsc. }
  assert (Hnsc : ~ screamRule signals min max).
  { rewrite <- scream_test. congruence. }
  destruct (Qgtb (smile signals) _ && _) eqn:Hsm.
  { apply rule_smile; [exact Hnsc | apply smile_test, Hsm]. }
  assert (Hnsm : ~ smileRule signals min max).
  { rewrite <- smile_test. congruence. }
  destruct (Qltb (eyeOpen signals) _ && _) eqn:Hsq.
  { apply rule_squint; [exact Hnsc | exact Hnsm | apply squint_test, Hsq]. }
  apply rule_neutral; [exact Hnsc | exact Hnsm |].
  rewrite <- squint_test. congruence.
Qed.

End RangeFacts.

(** C9.  When the observed ranges of mouthOpen, smile and eyeOpen are
    all below 0.05, [classifyFromRanges] returns NEUTRAL whatever the
    signals; when they are not (in particular when each is at least
    0.05), its result is the one the evaluation scream, smile, squint,
    else neutral determines. *)
Theorem range_classifier_neutral_gate (signals min max : ExpressionSignals) :
  (mouthOpen max - mouthOpen min < 0.05 ->
   smile max - smile min < 0.05 ->
   eyeOpen max - eyeOpen min < 0.05 ->
   classifyFromRanges signals min max = NEUTRAL)
  /\ (~ (mouthOpen max - mouthOpen min < 0.05
         /\ smile max - smile min < 0.05
         /\ eyeOpen max - eyeOpen min < 0.05) ->
      forall label,
        rangeRule signals min max label
        <-> classifyFromRanges signals min max = label).
Proof.
  split.
  - intros Hm Hs He. unfold classifyFromRanges.
    apply Qltb_lt in Hm, Hs, He. rewrite Hm, Hs, He. reflexivity.
  - intros Hgate label.
    assert (Hb : Qltb (mouthOpen max - mouthOpen min) 0.05
                 && Qltb (smile max - smile min) 0.05
                 && Qltb (eyeOpen max - eyeOpen min) 0.05 = false).
    { apply not_true_iff_false. rewrite !andb_true_iff, !Qltb_lt. tauto. }
    pose proof (classifyFromRanges_normal signals min max Hb) as Hrule.
    split.
    + intros Hl. eapply rangeRule_functional; eassumption.
    + intros <-. exact Hrule.
Qed.

(** Witness of C9: a flat session start and the full range 0..1. *)
Lemma range_classifier_neutral_gate_witness :
  classifyFromRanges (mkSignals 1 0.9 0.9 0.1) (mkSignals 1 0.2 0.4 0.3)
                     (mkSignals 1 0.21 0.41 0.31) = NEUTRAL
  /\ rangeRule (mkSignals 1 0.9 0.1 0.5) (mkSignals 1 0 0 0)
               (mkSignals 1 1 1 1) SCREAM.
Proof.
  split.
  - apply (proj1 (range_classifier_neutral_gate
                    (mkSignals 1 0.9 0.9 0.1) (mkSignals 1 0.2 0.4 0.3)
                    (mkSignals 1 0.21 0.41 0.31)));
      vm_compute; reflexivity.
  - apply (proj2 (range_classifier_neutral_gate
                    (mkSignals 1 0.9 0.1 0.5) (mkSignals 1 0 0 0)
                    (mkSignals 1 1 1 1))).
    + intros [H _]. vm_compute in H. discriminate H.
    + vm_compute. reflexivity.
Defined.

(** ** The asset registry *)

(** C10.  [getMeme] does not fall back to the neutral asset for a key
    that the object MEMES inherits from Object.prototype.  No entry is
    registered under "constructor", "toString" or "__proto__", yet
    [MEMES[key]] is then the inherited member, which is not [undefined],
    and [getMeme] returns it: not an asset, and not the one registered
    under "neutral", which an unregistered key such as "freaky" does
    get. *)
Theorem getMeme_inherited_key :
  MEMES !! "constructor" = None
  /\ getMeme "constructor" = inherited "constructor"
  /\ getMeme "toString" = inherited "toString"
  /\ getMeme "__proto__" = inherited "__proto__"
  /\ (forall asset, getMeme "constructor" <> own asset)
  /\ getMeme "freaky"
     = own (mkAsset "neutral" MemeType.image "/memes/neutral.jpeg").
Proof.
  assert (H : getMeme "constructor" = inherited "constructor")
    by (vm_compute; reflexivity).
  split_and!; try (vm_compute; reflexivity).
  intros asset. rewrite H. discriminate.
Qed.

(** ** The colour-sampling tongue detector *)

Lemma redDominant_spec p : redDominant p = true <-> RedDominant p.
Proof.
  unfold redDominant, RedDominant.
  rewrite !andb_true_iff, !Qgtb_gt, (Zlt_Qlt 50), (Zlt_Qlt (green p + 10)),
    (Zlt_Qlt (blue p + 10)), !inject_Z_plus.
  change (inject_Z 50) with 50. change (inject_Z 10) with 10. tauto.
Qed.

Lemma countRed_spec data redCount total :
  countRed data redCount total
  = ((redCount + Z.of_nat (length (List.filter redDominant data)))%Z,
     (total + Z.of_nat (length data))%Z).
Proof.
  revert redCount total. induction data as [|p data IH]; intros rc tot; simpl.
  - f_equal; lia.
  - rewrite IH. destruct (redDominant p); simpl; f_equal; lia.
Qed.

Lemma length_bind_const {A B : Type} (f : A -> list B) (l : list A) n :
  (forall a, length (f a) = n) -> length (l ≫= f) = (length l * n)%nat.
Proof.
  intros Hf. induction l as [|a l IH]; [reflexivity|].
  rewrite bind_cons, length_app, IH, Hf. reflexivity.
Qed.

Lemma length_getImageData video r :
  Z.of_nat (length (getImageData video r))
  = (Z.max 0 (clampedHeight r) * Z.max 0 (clampedWidth r))%Z.
Proof.
  unfold getImageData.
  rewrite (length_bind_const _ _ (Z.to_nat (clampedWidth r))).
  - rewrite length_seqZ. lia.
  - intros row. rewrite (length_bind_const _ _ 1%nat) by reflexivity.
    rewrite length_seqZ. lia.
Qed.

(** What a successful [sampleRect] says about its rectangle. *)
Lemma sampleRect_Some video landmarks r :
  sampleRect video landmarks = Some r ->
  exists mouthLeft mouthRight upperLip lowerLip,
    landmarks !! 61%nat = Some mouthLeft
    /\ landmarks !! 291%nat = Some mouthRight
    /\ landmarks !! 13%nat = Some upperLip
    /\ landmarks !! 14%nat = Some lowerLip
    /\ videoWidth video <> 0%Z /\ videoHeight video <> 0%Z
    /\ (0 < clampedWidth r)%Z /\ (0 < clampedHeight r)%Z
    /\ let left := Landmark.x mouthLeft * inject_Z (videoWidth video) in
       let right := Landmark.x mouthRight * inject_Z (videoWidth video) in
       let top := Landmark.y upperLip * inject_Z (videoHeight video) in
       let bottom := Landmark.y lowerLip * inject_Z (videoHeight video) in
       let mouthWidth := Qmax (right - left) 1 in
       let mouthHeight := Qmax (bottom - top) 1 in
       let sampleWidth := Z.max 6 (Qfloor (0.5 * mouthWidth)) in
       let sampleHeight := Z.max 4 (Qfloor (0.6 * mouthHeight)) in
       sampleX r
       = Z.max 0 (Qfloor ((left + right) / 2 - inject_Z sampleWidth / 2))
       /\ sampleY r
          = Z.max 0 (Qfloor ((top + bottom) / 2 + 0.1 * mouthHeight
                             - inject_Z sampleHeight / 2))
       /\ clampedWidth r = Z.min sampleWidth (videoWidth video - sampleX r)
       /\ clampedHeight r
          = Z.min sampleHeight (videoHeight video - sampleY r).
Proof.
  unfold sampleRect.
  destruct (landmarks !! 61%nat) as [ml|]; [|discriminate].
  destruct (landmarks !! 291%nat) as [mr|]; [|discriminate].
  destruct (landmarks !! 13%nat) as [ul|]; [|discriminate].
  destruct (landmarks !! 14%nat) as [ll|]; [|discriminate].
  cbn [mbind option_bind].
  destruct (_ || _) eqn:Hdim; [discriminate|].
  apply orb_false_iff in Hdim as [Hw Hh].
  apply Z.eqb_neq in Hw, Hh.
  destruct (_ || _) eqn:Hclamp; [discriminate|].
  apply orb_false_iff in Hclamp as [Hcw Hch].
  apply Z.leb_gt in Hcw, Hch.
  intros Hr. apply (inj Some) in Hr. subst r. exists ml, mr, ul, ll.
  cbn [sampleX sampleY clampedWidth clampedHeight]. cbv zeta.
  split_and!; try assumption; try reflexivity.
  all: repeat match goal with
         | |- context [Qfloor (?m * 0.5)] =>
             rewrite (Qfloor_comp (m * 0.5) (0.5 * m)) by ring
         | |- context [Qfloor (?m * 0.6)] =>
             rewrite (Qfloor_comp (m * 0.6) (0.6 * m)) by ring
         | |- context [Qfloor (?a + ?m * 0.1 - ?b)] =>
             rewrite (Qfloor_comp (a + m * 0.1 - b) (a + 0.1 * m - b)) by ring
         end; reflexivity.
Qed.

Lemma getTongueConfidence_Some video landmarks canvas c :
  getTongueConfidence video landmarks canvas = Some c ->
  exists r,
    sampleRect video landmarks = Some r
    /\ context2d canvas = true
    /\ getImageData video r <> []
    /\ c == inject_Z (Z.of_nat (length (List.filter redDominant
                                                    (getImageData video r))))
            / inject_Z (Z.of_nat (length (getImageData video r))).
Proof.
  unfold getTongueConfidence.
  destruct (sampleRect video landmarks) as [r|]; [|discriminate].
  destruct (context2d canvas); [|discriminate]. cbn [negb].
  rewrite countRed_spec.
  destruct (_ =? _)%Z eqn:Htot; [discriminate|].
  apply Z.eqb_neq in Htot.
  intros Hc. apply (inj Some) in Hc. subst c.
  exists r. split_and!; try reflexivity.
  intros Hnil. rewrite Hnil in Htot. apply Htot. reflexivity.
Qed.

Lemma fraction_bounds (n d : nat) :
  (n <= d)%nat -> (0 < d)%nat ->
  0 <= inject_Z (Z.of_nat n) / inject_Z (Z.of_nat d) <= 1.
Proof.
  intros Hnd Hd.
  assert (Hd' : 0 < inject_Z (Z.of_nat d)).
  { change 0 with (inject_Z 0). rewrite <- Zlt_Qlt. lia. }
  split.
  - apply Qle_shift_div_l; [exact Hd'|].
    change (0 * inject_Z (Z.of_nat d)) with (inject_Z 0 * inject_Z (Z.of_nat d)).
    rewrite <- inject_Z_mult, <- Zle_Qle. lia.
  - apply Qle_shift_div_r; [exact Hd'|].
    change (1 * inject_Z (Z.of_nat d)) with (inject_Z 1 * inject_Z (Z.of_nat d)).
    rewrite <- inject_Z_mult, <- Zle_Qle. lia.
Qed.

(** With the four mouth landmarks inside the frame (no coordinate above
    1) and a frame of positive size, the sampled rectangle is not
    empty. *)
Lemma sampleRect_defined video landmarks mouthLeft mouthRight upperLip lowerLip :
  landmarks !! 61%nat = Some mouthLeft ->
  landmarks !! 291%nat = Some mouthRight ->
  landmarks !! 13%nat = Some upperLip ->
  landmarks !! 14%nat = Some lowerLip ->
  Landmark.x mouthLeft <= 1 -> Landmark.x mouthRight <= 1 ->
  Landmark.y upperLip <= 1 -> Landmark.y lowerLip <= 1 ->
  (0 < videoWidth video)%Z -> (0 < videoHeight video)%Z ->
  is_Some (sampleRect video landmarks).
Proof.
  intros H1 H2 H3 H4 Hxl Hxr Hyu Hyl Hw Hh.
  unfold sampleRect. rewrite H1, H2, H3, H4. cbn [mbind option_bind].
  assert (HW : 0 < inject_Z (videoWidth video))
    by (change 0 with (inject_Z 0); rewrite <- Zlt_Qlt; exact Hw).
  assert (HH : 0 < inject_Z (videoHeight video))
    by (change 0 with (inject_Z 0); rewrite <- Zlt_Qlt; exact Hh).
  destruct (_ || _) eqn:Hdim.
  { apply orb_true_iff in Hdim as [Hz | Hz]; apply Z.eqb_eq in Hz; lia. }
  set (left := Landmark.x mouthLeft * inject_Z (videoWidth video)).
  set (right := Landmark.x mouthRight * inject_Z (videoWidth video)).
  set (top := Landmark.y upperLip * inject_Z (videoHeight video)).
  set (bottom := Landmark.y lowerLip * inject_Z (videoHeight video)).
  assert (Hleft : left <= inject_Z (videoWidth video)) by (subst left; nra).
  assert (Hright : right <= inject_Z (videoWidth video)) by (subst right; nra).
  assert (Htop : top <= inject_Z (videoHeight video)) by (subst top; nra).
  assert (Hbottom : bottom <= inject_Z (videoHeight video))
    by (subst bottom; nra).
  clearbody left right top bottom.
  set (mouthWidth := Qmax (right - left) 1).
  set (mouthHeight := Qmax (bottom - top) 1).
  assert (Hmh : mouthHeight == bottom - top \/ mouthHeight == 1).
  { subst mouthHeight.
    destruct (Q.max_spec (bottom - top) 1) as [[_ Hm]|[_ Hm]];
      [right | left]; exact Hm. }
  clearbody mouthWidth mouthHeight.
  set (sampleWidth := Z.max 6 (Qfloor (mouthWidth * 0.5))).
  set (sampleHeight := Z.max 4 (Qfloor (mouthHeight * 0.6))).
  assert (HswZ : (6 <= sampleWidth)%Z) by (subst sampleWidth; lia).
  assert (HshZ : (4 <= sampleHeight)%Z) by (subst sampleHeight; lia).
  clearbody sampleWidth sampleHeight.
  assert (Hsw : 6 <= inject_Z sampleWidth)
    by (change 6 with (inject_Z 6); rewrite <- Zle_Qle; exact HswZ).
  assert (Hsh : 4 <= inject_Z sampleHeight)
    by (change 4 with (inject_Z 4); rewrite <- Zle_Qle; exact HshZ).
  set (cx := (left + right) / 2 - inject_Z sampleWidth / 2).
  set (cy := (top + bottom) / 2 + mouthHeight * 0.1 - inject_Z sampleHeight / 2).
  assert (Hcx : (Qfloor cx < videoWidth video)%Z).
  { rewrite Zlt_Qlt. apply (Qle_lt_trans _ cx); [apply Qfloor_le|].
    subst cx. clear -Hleft Hright Hsw.
    generalize dependent (inject_Z sampleWidth).
    generalize dependent (inject_Z (videoWidth video)).
    intros. unfold Qdiv. change (/ 2) with (1 # 2). lra. }
  assert (Hcy : (Qfloor cy < videoHeight video)%Z).
  { rewrite Zlt_Qlt. apply (Qle_lt_trans _ cy); [apply Qfloor_le|].
    subst cy. clear -Htop Hbottom Hsh Hmh.
    generalize dependent (inject_Z sampleHeight).
    generalize dependent (inject_Z (videoHeight video)).
    intros. unfold Qdiv. change (/ 2) with (1 # 2).
    destruct Hmh as [Hm | Hm]; lra. }
  clearbody cx cy.
  match goal with
  | |- context [if ?b then None else _] => destruct b eqn:Hclamp
  end; [|eexists; reflexivity].
  apply orb_true_iff in Hclamp as [Hz | Hz]; apply Z.leb_le in Hz; lia.
Qed.

(** C7, as stated, fails: on a 640x480 frame with the mouth corners at
    x = 0.4 and x = 0.6 the mouth is 128 pixels wide and the sampled
    rectangle is 64 pixels wide, half of it, not 60% of it. *)
Lemma tongue_crop_width_is_not_60_percent :
  sampleRect (camera 0 dark) (face 0.08)
  = Some {| sampleX := 288; sampleY := 328;
            clampedWidth := 64; clampedHeight := 23 |}
  /\ 0.6 * 640 - 0.4 * 640 == 128
  /\ ~ inject_Z 64 == 0.6 * 128
  /\ Qfloor (0.6 * 128) <> 64%Z.
Proof. vm_compute. split_and!; try reflexivity; discriminate. Qed.

(** C7, amended.  [getTongueConfidence] returns nothing when one of the
    four mouth landmarks is missing, when the frame has no width or no
    height, or when the canvas gives no context.  When it returns a
    value, the sampled rectangle is max(6, floor of 50% of the mouth
    width) wide and max(4, floor of 60% of the mouth height) high (both
    mouth sizes at least 1 pixel), cut to the frame, its corner at the
    floor of the centre minus half the size and not below 0, the centre
    being the horizontal midpoint and the vertical midpoint shifted down
    by 10% of the mouth height; the value is the fraction of the
    rectangle's pixels with R > 50, R > G + 10, R > B + 10 and
    R - (G+B)/2 > 8, and lies in [0, 1].  It does return a value when
    the four landmarks lie within the frame (no coordinate above 1), the
    frame has a positive width and height and the canvas gives a
    context. *)
Theorem tongue_confidence_sampling (video : HTMLVideoElement)
  (landmarks : list Landmark.t) (canvas : HTMLCanvasElement) :
  ((landmarks !! 61%nat = None \/ landmarks !! 291%nat = None
    \/ landmarks !! 13%nat = None \/ landmarks !! 14%nat = None
    \/ videoWidth video = 0%Z \/ videoHeight video = 0%Z
    \/ context2d canvas = false) ->
   getTongueConfidence video landmarks canvas = None)
  /\ (forall p, redDominant p = true <-> RedDominant p)
  /\ (forall c,
         getTongueConfidence video landmarks canvas = Some c ->
         exists mouthLeft mouthRight upperLip lowerLip r,
           landmarks !! 61%nat = Some mouthLeft
           /\ landmarks !! 291%nat = Some mouthRight
           /\ landmarks !! 13%nat = Some upperLip
           /\ landmarks !! 14%nat = Some lowerLip
           /\ sampleRect video landmarks = Some r
           /\ (let left := Landmark.x mouthLeft * inject_Z (videoWidth video) in
               let right :=
                 Landmark.x mouthRight * inject_Z (videoWidth video) in
               let top := Landmark.y upperLip * inject_Z (videoHeight video) in
               let bottom :=
                 Landmark.y lowerLip * inject_Z (videoHeight video) in
               let mouthWidth := Qmax (right - left) 1 in
               let mouthHeight := Qmax (bottom - top) 1 in
               let sampleWidth := Z.max 6 (Qfloor (0.5 * mouthWidth)) in
               let sampleHeight := Z.max 4 (Qfloor (0.6 * mouthHeight)) in
               sampleX r
               = Z.max 0 (Qfloor ((left + right) / 2
                                  - inject_Z sampleWidth / 2))
               /\ sampleY r
                  = Z.max 0 (Qfloor ((top + bottom) / 2 + 0.1 * mouthHeight
                                     - inject_Z sampleHeight / 2))
               /\ clampedWidth r
                  = Z.min sampleWidth (videoWidth video - sampleX r)
               /\ clampedHeight r
                  = Z.min sampleHeight (videoHeight video - sampleY r))
           /\ (0 <= sampleX r /\ 0 < clampedWidth r
               /\ sampleX r + clampedWidth r <= videoWidth video)%Z
           /\ (0 <= sampleY r /\ 0 < clampedHeight r
               /\ sampleY r + clampedHeight r <= videoHeight video)%Z
           /\ Z.of_nat (length (getImageData video r))
              = (clampedHeight r * clampedWidth r)%Z
           /\ c == inject_Z (Z.of_nat (length (List.filter
                                                 redDominant
                                                 (getImageData video r))))
                   / inject_Z (Z.of_nat (length (getImageData video r)))
           /\ 0 <= c <= 1)
  /\ (forall mouthLeft mouthRight upperLip lowerLip,
         landmarks !! 61%nat = Some mouthLeft ->
         landmarks !! 291%nat = Some mouthRight ->
         landmarks !! 13%nat = Some upperLip ->
         landmarks !! 14%nat = Some lowerLip ->
         Landmark.x mouthLeft <= 1 -> Landmark.x mouthRight <= 1 ->
         Landmark.y upperLip <= 1 -> Landmark.y lowerLip <= 1 ->
         (0 < videoWidth video)%Z -> (0 < videoHeight video)%Z ->
         context2d canvas = true ->
         is_Some (getTongueConfidence video landmarks canvas)).
Proof.
  split_and!; cycle 3.
  { intros ml mr ul ll H1 H2 H3 H4 Hxl Hxr Hyu Hyl Hw Hh Hctx.
    destruct (sampleRect_defined video landmarks ml mr ul ll
                H1 H2 H3 H4 Hxl Hxr Hyu Hyl Hw Hh) as [r Hr].
    destruct (sampleRect_Some _ _ _ Hr)
      as (_ & _ & _ & _ & _ & _ & _ & _ & _ & _ & Hcw & Hch & _).
    pose proof (length_getImageData video r) as Hlen.
    unfold getTongueConfidence. rewrite Hr, Hctx. cbn [negb].
    rewrite countRed_spec.
    destruct (_ =? _)%Z eqn:Htot; [|eexists; reflexivity].
    apply Z.eqb_eq in Htot. nia. }
  - intros Hmiss. unfold getTongueConfidence.
    destruct (sampleRect video landmarks) as [r|] eqn:Hr; [|reflexivity].
    destruct (sampleRect_Some _ _ _ Hr)
      as (ml & mr & ul & ll & H1 & H2 & H3 & H4 & Hw & Hh & _).
    destruct Hmiss as [H|[H|[H|[H|[H|[H|H]]]]]]; try congruence.
    rewrite H. reflexivity.
  - apply redDominant_spec.
  - intros c Hc.
    destruct (getTongueConfidence_Some _ _ _ _ Hc) as (r & Hr & _ & Hdata & Hfrac).
    destruct (sampleRect_Some _ _ _ Hr)
      as (ml & mr & ul & ll & H1 & H2 & H3 & H4 & _ & _ & Hcw & Hch & Hrect).
    exists ml, mr, ul, ll, r.
    pose proof (length_getImageData video r) as Hlen.
    cbv zeta in Hrect. destruct Hrect as (Hx & Hy & Hcw' & Hch').
    split_and!; try assumption; try lia.
    + split_and!; assumption.
    + rewrite Hfrac. apply fraction_bounds.
      * apply filter_length_le.
      * destruct (getImageData video r); [congruence | simpl; lia].
    + rewrite Hfrac. apply fraction_bounds.
      * apply filter_length_le.
      * destruct (getImageData video r); [congruence | simpl; lia].
Qed.

(** Witness of the amended C7: a frame without picture, and a frame
    filled with red, for which a value is returned. *)
Lemma tongue_confidence_sampling_witness :
  getTongueConfidence (mkVideo 4 0 (Some live) 0 0 dark) (face 0.08)
                      (mkCanvas true) = None
  /\ 0 <= 1472 # 1472 <= 1
  /\ is_Some (getTongueConfidence (camera 0 tongueRed) (face 0.08)
                                  (mkCanvas true)).
Proof.
  split; [|split].
  - apply (proj1 (tongue_confidence_sampling
                    (mkVideo 4 0 (Some live) 0 0 dark) (face 0.08)
                    (mkCanvas true))).
    right; right; right; right; left. reflexivity.
  - destruct (proj1 (proj2 (proj2 (tongue_confidence_sampling
                                     (camera 0 tongueRed) (face 0.08)
                                     (mkCanvas true))))
                    (1472 # 1472))
      as (ml & mr & ul & ll & r & _ & _ & _ & _ & _ & _ & _ & _ & _ & _ & Hb).
    + vm_compute. reflexivity.
    + exact Hb.
  - refine (proj2 (proj2 (proj2 (tongue_confidence_sampling
                                   (camera 0 tongueRed) (face 0.08)
                                   (mkCanvas true))))
                  (facePoint 0.08 61) (facePoint 0.08 291)
                  (facePoint 0.08 13) (facePoint 0.08 14)
                  eq_refl eq_refl eq_refl eq_refl _ _ _ _ _ _ eq_refl);
      vm_compute; reflexivity || discriminate.
Defined.

(** ** The smoother on the pipeline's signals *)

Lemma step_defined s output k v :
  k ∉ objectPrototypeKeys -> is_Some (SignalSmoother.step (s, output) (k, v)).
Proof.
  intros Hk. unfold SignalSmoother.step, get.
  destruct (SignalSmoother.smoothers s !! k) as [e|].
  - cbn [mbind option_bind]. destruct (EmaSmoother.update e v). eauto.
  - rewrite bool_decide_eq_false_2 by exact Hk. cbn [mbind option_bind].
    destruct (EmaSmoother.update _ v). eauto.
Qed.

Lemma loop_defined entries acc :
  Forall (fun entry => entry.1 ∉ objectPrototypeKeys) entries ->
  is_Some (SignalSmoother.loop acc entries).
Proof.
  intros Hkeys. revert acc.
  induction Hkeys as [|[k v] entries Hk _ IH]; intros [s output].
  - eexists. reflexivity.
  - cbn [SignalSmoother.loop].
    destruct (step_defined s output k v Hk) as [acc' ->].
    cbn [mbind option_bind]. apply IH.
Qed.

Lemma entriesOf_safe raw :
  Forall (fun entry => entry.1 ∉ objectPrototypeKeys) (entriesOf raw).
Proof.
  unfold entriesOf. repeat constructor; cbn [fst];
    apply (proj1 (bool_decide_eq_false _)); vm_compute; reflexivity.
Qed.

(** The four keys of the pipeline's signals are not inherited names:
    smoothing them never throws. *)
Lemma smooth_total sm raw : is_Some (smooth sm raw).
Proof.
  unfold smooth, SignalSmoother.update.
  destruct (loop_defined (entriesOf raw) (sm, list_to_map (entriesOf raw))
                         (entriesOf_safe raw)) as [[sm' output] ->].
  eexists. reflexivity.
Qed.

Ltac smooth_known :=
  match goal with
  | |- context [smooth ?sm ?raw] =>
      let smoother := fresh "smoother" in
      let smoothSignals := fresh "smoothSignals" in
      let H := fresh "Hsmooth" in
      destruct (smooth_total sm raw) as [[smoother smoothSignals] H];
      rewrite H; cbn [mbind option_bind]
  end.

(** ** The per-frame callback *)

Section DriverFacts.

Variable hypot : Q -> Q -> Q.
Variable debug : bool.

Local Abbreviation onResult := (onResult hypot debug).
Local Abbreviation runLoop := (runLoop hypot debug).
Local Abbreviation processFace := (processFace hypot).
Local Abbreviation classifyFace := (classifyFace hypot).

(** Past the three liveness checks the callback is the presence
    decision followed by the frame of a held face. *)
Lemma onResult_live st tick :
  passesGates st tick ->
  exists video,
    videoEl tick = Some video
    /\ onResult st tick
       = (let st1 := noteVideoTime st video (performanceNow tick) in
          let '(st2, stableDetected) :=
            presence st1 (detectedIn tick) (performanceNow tick) in
          if negb stableDetected then Some (resetToNeutral st2)
          else processFace st2 video tick).
Proof.
  intros (video & Hv & Hready & Hstall & Htrack).
  exists video. split; [exact Hv|].
  unfold onResult. rewrite Hv.
  apply Z.ltb_ge in Hready. rewrite Hready, Hstall, Htrack. reflexivity.
Qed.

Lemma computeSignals_complete landmarks :
  (386 < length landmarks)%nat ->
  is_Some (computeSignals hypot landmarks).
Proof.
  intros Hlen. unfold computeSignals.
  repeat match goal with
         | |- context [landmarks !! ?i] =>
             let H := fresh in
             let p := fresh "p" in
             destruct (lookup_lt_is_Some_2 landmarks i) as [p H];
             [unfold i; lia | rewrite H; clear H; cbn [mbind option_bind]]
         end.
  eexists. reflexivity.
Qed.



Lemma classifyFace_total st tick :
  completeFaces tick -> is_Some (classifyFace st tick).
Proof.
  unfold completeFaces, classifyFace. intros Hc.
  destruct (head (faceLandmarks (result tick))) as [landmarks|].
  - destruct (computeSignals_complete landmarks Hc) as [ls ->].
    cbn [fmap option_fmap option_map mbind option_bind].
    repeat case_match; try smooth_known; repeat case_match;
      eexists; reflexivity.
  - cbn [mbind option_bind].
    repeat case_match; try smooth_known; repeat case_match;
      eexists; reflexivity.
Qed.

Lemma processFace_total st video tick :
  completeFaces tick -> is_Some (processFace st video tick).
Proof.
  intros Hc. unfold processFace.
  destruct (classifyFace_total st tick Hc) as [[c|] ->];
    eexists; reflexivity.
Qed.





End DriverFacts.




(** ** The tongue heuristics *)

(** With [nextLabel] still NEUTRAL, as it is where the callback
    evaluates the proxy, and no [tongueOut] entry to read, the proxy is
    off. *)
Lemma tongueProxy_neutral blendDebug :
  tongueProxy NEUTRAL blendDebug = false.
Proof. destruct blendDebug; reflexivity. Qed.

(** C2.  A blendshape frame with jawOpen 0.4, mouthFunnel 0.02 and a
    mean smile of 0.1 is classified SCREAM and meets the three score
    conditions of the proxy, yet its raw label stays SCREAM: the proxy is
    evaluated while [nextLabel] still holds its initial NEUTRAL, before
    the classifier has run, so its SCREAM alternative never holds. *)
Theorem scream_proxy_never_fires (hypot : Q -> Q -> Q) (debug : bool) :
  let tick := frame 0 dark [face 0.08] [wideOpen] in
  let blendDebug := getBlendshapeDebug (Some wideOpen) in
  Qgeb (from_option dbg_jawOpen 0 blendDebug) 0.35 = true
  /\ Qgeb (from_option dbg_mouthFunnel 0 blendDebug) 0.01 = true
  /\ Qleb (from_option dbg_mouthSmile 0 blendDebug) 0.45 = true
  /\ c_nextLabel <$> mjoin (classifyFace hypot initialSession tick)
     = Some SCREAM
  /\ tongueProxy SCREAM blendDebug = true
  /\ tongueProxy NEUTRAL blendDebug = false
  /\ rawExpressionLabel <$> onResult hypot debug initialSession tick
     = Some SCREAM.
Proof. vm_compute. split_and!; reflexivity. Qed.

Lemma tongueHold_until holdUntil now ls tongueScore l :
  fst (tongueHold holdUntil now ls tongueScore l)
  = if fires ls tongueScore then now + 700 else holdUntil.
Proof. reflexivity. Qed.

Lemma tongueHold_fired holdUntil now ls tongueScore l :
  fires ls tongueScore = true ->
  tongueHold holdUntil now ls tongueScore l = (now + 700, FREAKY).
Proof.
  intros Hf. unfold tongueHold. rewrite Hf.
  assert (Hm : 0.1 < mouthOpen ls).
  { unfold fires in Hf. destruct tongueScore; [|discriminate].
    apply andb_true_iff in Hf as [_ Hm]. apply Qgtb_gt, Hm. }
  assert (H1 : Qgtb (now + 700) now = true) by (apply Qgtb_gt; lra).
  assert (H2 : Qgtb (mouthOpen ls) 0.08 = true) by (apply Qgtb_gt; lra).
  rewrite H1, H2. reflexivity.
Qed.

Lemma tongueHold_active holdUntil now ls tongueScore l :
  now < holdUntil -> 0.08 < mouthOpen ls ->
  snd (tongueHold holdUntil now ls tongueScore l) = FREAKY.
Proof.
  intros Hh Hm. unfold tongueHold. cbn [snd].
  assert (H2 : Qgtb (mouthOpen ls) 0.08 = true) by (apply Qgtb_gt; exact Hm).
  rewrite H2.
  destruct (fires ls tongueScore).
  - assert (H1 : Qgtb (now + 700) now = true) by (apply Qgtb_gt; lra).
    rewrite H1. reflexivity.
  - assert (H1 : Qgtb holdUntil now = true) by (apply Qgtb_gt; exact Hh).
    rewrite H1. reflexivity.
Qed.

Lemma tongueHold_released holdUntil now ls tongueScore l :
  fires ls tongueScore = false -> holdUntil <= now ->
  tongueHold holdUntil now ls tongueScore l = (holdUntil, l).
Proof.
  intros Hf Hh. unfold tongueHold. rewrite Hf.
  assert (H1 : Qgtb holdUntil now = false) by (apply Qgtb_le; exact Hh).
  rewrite H1. reflexivity.
Qed.

Section HoldFacts.

Variable hypot : Q -> Q -> Q.
Variable debug : bool.

Local Abbreviation onResult := (onResult hypot debug).
Local Abbreviation runLoop := (runLoop hypot debug).
Local Abbreviation processFace := (processFace hypot).
Local Abbreviation classifyFace := (classifyFace hypot).

Lemma classifyFace_ext st st' tick :
  smootherRef st = smootherRef st' ->
  calibrationRef st = calibrationRef st' ->
  extremesRef st = extremesRef st' ->
  classifyFace st tick = classifyFace st' tick.
Proof. unfold classifyFace. intros -> -> ->. reflexivity. Qed.

Lemma classifyFace_landmarks st tick c :
  classifyFace st tick = Some (Some c) ->
  c_landmarkSignals c = geometry hypot tick.
Proof.
  unfold classifyFace, geometry.
  destruct (head (faceLandmarks (result tick))) as [landmarks|];
    cbn [mbind option_bind].
  - destruct (computeSignals hypot landmarks) as [ls|];
      cbn [fmap option_fmap option_map mbind option_bind]; [|discriminate].
    repeat case_match; try smooth_known; repeat case_match;
      intros; simplify_eq; reflexivity.
  - repeat case_match; try smooth_known; repeat case_match;
      intros; simplify_eq; reflexivity.
Qed.

Lemma classifyFace_face st tick ls :
  geometry hypot tick = Some ls ->
  exists c, classifyFace st tick = Some (Some c).
Proof.
  unfold classifyFace, geometry.
  destruct (head (faceLandmarks (result tick))) as [landmarks|];
    cbn [mbind option_bind]; [|discriminate].
  intros ->. cbn [fmap option_fmap option_map mbind option_bind].
  destruct (bool_decide _ && _) eqn:Huse.
  - apply andb_true_iff in Huse as [Hsome _].
    apply bool_decide_eq_true in Hsome as [raw ->].
    repeat case_match; try smooth_known; repeat case_match;
      eexists; reflexivity.
  - repeat case_match; try smooth_known; repeat case_match;
      eexists; reflexivity.
Qed.

Lemma finishFace_hold st video tick c ls landmarks :
  c_landmarkSignals c = Some ls ->
  head (faceLandmarks (result tick)) = Some landmarks ->
  let h := tongueHold (tongueHoldUntilRef st) (performanceNow tick) ls
                      (getTongueConfidence video landmarks (canvas tick))
                      (c_nextLabel c) in
  tongueHoldUntilRef (finishFace st video tick c) = fst h
  /\ rawExpressionLabel (finishFace st video tick c) = snd h.
Proof.
  intros Hls Hlm h. subst h. unfold finishFace. rewrite Hls, Hlm.
  destruct (tongueHold _ _ _ _ _) as [h l].
  destruct (LabelStabilizer.update _ _ _). split; reflexivity.
Qed.

Lemma finishFace_no_landmarks st video tick c :
  c_landmarkSignals c = None ->
  tongueHoldUntilRef (finishFace st video tick c) = tongueHoldUntilRef st.
Proof.
  intros Hls. unfold finishFace. rewrite Hls.
  destruct (LabelStabilizer.update _ _ _). reflexivity.
Qed.

(** The frame of a face with landmark signals that passes the liveness
    checks goes through both stages. *)
Lemma onResult_face st tick ls :
  passesGates st tick -> geometry hypot tick = Some ls ->
  exists c st',
    classifyFace st tick = Some (Some c)
    /\ onResult st tick = Some st'
    /\ tongueHoldUntilRef st'
       = fst (tongueHold (tongueHoldUntilRef st) (performanceNow tick) ls
                         (colourScore tick) (c_nextLabel c))
    /\ rawExpressionLabel st'
       = snd (tongueHold (tongueHoldUntilRef st) (performanceNow tick) ls
                         (colourScore tick) (c_nextLabel c)).
Proof.
  intros Hg Hgeo.
  destruct (onResult_live hypot debug st tick Hg) as (video & Hv & ->).
  destruct (classifyFace_face st tick ls Hgeo) as [c Hc].
  pose proof (classifyFace_landmarks st tick c Hc) as Hls.
  rewrite Hgeo in Hls.
  assert (Hhead : exists landmarks,
             head (faceLandmarks (result tick)) = Some landmarks).
  { unfold geometry in Hgeo.
    destruct (head (faceLandmarks (result tick))); [eauto | discriminate]. }
  destruct Hhead as [landmarks Hlm].
  assert (Hdet : detectedIn tick = true).
  { unfold detectedIn. destruct (faceLandmarks (result tick));
      [discriminate | reflexivity]. }
  assert (Hscore : colourScore tick
                   = getTongueConfidence video landmarks (canvas tick)).
  { unfold colourScore. rewrite Hv, Hlm. reflexivity. }
  rewrite Hdet, Hscore. unfold presence. cbn [orb negb].
  set (st2 := mkSession _ _ _ _ _ _ _ _ _ _ _ _ _ _ _).
  assert (Hc2 : classifyFace st2 tick = Some (Some c)).
  { rewrite <- Hc. apply classifyFace_ext; reflexivity. }
  exists c, (finishFace st2 video tick c).
  split_and!; [exact Hc | unfold processFace; rewrite Hc2; reflexivity | |];
    apply (finishFace_hold st2 video tick c ls landmarks Hls Hlm).
Qed.

(** A callback leaves the hold alone or, when the colour detector
    fires, sets it 700 ms past the frame's time. *)
Lemma onResult_hold_step st tick st' :
  onResult st tick = Some st' ->
  tongueHoldUntilRef st' = tongueHoldUntilRef st
  \/ (colourFires hypot tick = true
      /\ tongueHoldUntilRef st' = performanceNow tick + 700).
Proof.
  unfold onResult.
  destruct (videoEl tick) as [video|] eqn:Hv; [|intros [= <-]; left; reflexivity].
  destruct (_ <? _)%Z; [intros [= <-]; left; reflexivity|].
  destruct (stalled _ _ _); [intros [= <-]; left; reflexivity|].
  destruct (trackNotLive _); [intros [= <-]; left; reflexivity|].
  destruct (presence _ _ _) as [st2 stableDetected] eqn:Hp.
  assert (Hh2 : tongueHoldUntilRef st2 = tongueHoldUntilRef st).
  { apply (f_equal fst) in Hp. cbn [fst] in Hp. rewrite <- Hp. reflexivity. }
  rewrite <- Hh2.
  destruct (negb _); [intros [= <-]; left; reflexivity|].
  unfold processFace.
  destruct (classifyFace st2 tick) as [[c|]|] eqn:Hc;
    [|intros [= <-]; left; reflexivity | discriminate].
  intros [= <-].
  pose proof (classifyFace_landmarks st2 tick c Hc) as Hls.
  destruct (geometry hypot tick) as [ls|] eqn:Hgeo.
  - assert (Hhead : exists landmarks,
               head (faceLandmarks (result tick)) = Some landmarks).
    { unfold geometry in Hgeo.
      destruct (head (faceLandmarks (result tick))); [eauto | discriminate]. }
    destruct Hhead as [landmarks Hlm].
    destruct (finishFace_hold st2 video tick c ls landmarks Hls Hlm) as [-> _].
    rewrite tongueHold_until.
    assert (Hfire : colourFires hypot tick
                    = fires ls (getTongueConfidence video landmarks
                                                    (canvas tick))).
    { unfold colourFires, colourScore.
      rewrite Hgeo, Hv, Hlm. reflexivity. }
    rewrite <- Hfire. destruct (colourFires hypot tick); auto.
  - left. apply finishFace_no_landmarks, Hls.
Qed.

(** While the clock does not run back before [t], a hold armed until
    [t + 700] is not shortened. *)
Lemma runLoop_hold_kept t ticks st st' :
  Forall (fun tick => t <= performanceNow tick) ticks ->
  runLoop st ticks = Some st' ->
  t + 700 <= tongueHoldUntilRef st ->
  t + 700 <= tongueHoldUntilRef st'.
Proof.
  intros Hmono. revert st. induction Hmono as [|tick ticks Ht _ IH];
    intros st; simpl.
  - intros [= <-]. auto.
  - destruct (onResult st tick) as [st1|] eqn:Hstep; [|discriminate].
    intros Hrun Hh. apply (IH st1 Hrun).
    destruct (onResult_hold_step st tick st1 Hstep) as [-> | [_ ->]];
      [exact Hh | lra].
Qed.

(** Without a firing of the colour detector the hold keeps its value. *)
Lemma runLoop_hold_unchanged ticks st st' :
  Forall (fun tick => colourFires hypot tick = false) ticks ->
  runLoop st ticks = Some st' ->
  tongueHoldUntilRef st' = tongueHoldUntilRef st.
Proof.
  intros Hquiet. revert st. induction Hquiet as [|tick ticks Hq _ IH];
    intros st; simpl.
  - intros [= <-]. reflexivity.
  - destruct (onResult st tick) as [st1|] eqn:Hstep; [|discriminate].
    intros Hrun. rewrite (IH st1 Hrun).
    destruct (onResult_hold_step st tick st1 Hstep) as [-> | [Hf _]];
      [reflexivity | congruence].
Qed.

End HoldFacts.

(** C3, as stated, fails for the blendshape-native detector.  A frame
    at 1000 ms is blendshape-sourced and meets the detector's condition,
    in either form: a tongue score of 0.3, which is at least 0.2; or the
    label SCREAM with jawOpen 0.4, mouthFunnel 0.02 and a mean smile of
    0.1.  Neither frame arms the hold, and the frame at 1100 ms, within
    the window and with a geometry mouthOpen of 0.2, is not labelled
    FREAKY. *)
Lemma blendshape_tongue_arms_no_hold :
  let tongue := frame 1000 dark [face 0.08] [tongueShown] in
  let scream := frame 1000 dark [face 0.08] [wideOpen] in
  let next := frame 1100 dark [face 0.08] [] in
  getScore tongueShown "tongueOut" = Some 0.3
  /\ Qgeb 0.3 0.2 = true
  /\ Qgeb (blendStrength (getBlendshapeDebug (Some tongueShown))) 0.15 = true
  /\ c_nextLabel <$> mjoin (classifyFace hypotAxis initialSession scream)
     = Some SCREAM
  /\ tongueProxy SCREAM (getBlendshapeDebug (Some wideOpen)) = true
  /\ Qgeb (blendStrength (getBlendshapeDebug (Some wideOpen))) 0.15 = true
  /\ tongueHoldUntilRef <$> runLoop hypotAxis false initialSession [tongue]
     = Some 0
  /\ tongueHoldUntilRef <$> runLoop hypotAxis false initialSession [scream]
     = Some 0
  /\ (fun s => Qgtb (mouthOpen s) 0.08) <$> geometry hypotAxis next
     = Some true
  /\ 1100 - 1000 <= 699
  /\ rawExpressionLabel <$> runLoop hypotAxis false initialSession
                              [tongue; next]
     = Some NEUTRAL
  /\ rawExpressionLabel <$> runLoop hypotAxis false initialSession
                              [scream; next]
     = Some NEUTRAL.
Proof. vm_compute. split_and!; try reflexivity; discriminate. Qed.

(** C3, amended.  A frame on which the colour detector does not fire
    leaves the hold as it was, whatever blendshape scores it carries:
    the blendshape-native detector arms no hold.  When the colour
    detector fires (confidence at least 0.25 with a geometry mouthOpen
    above 0.1) on a frame at time t that passes the liveness checks,
    that frame's raw label is FREAKY and the hold is set to t + 700.
    After any frames whose clock is not before t, a frame that passes
    the liveness checks and has landmark signals with mouthOpen above
    0.08 has the raw label FREAKY when it comes less than 700 ms after
    t; and when no frame since has fired the colour detector and the
    frame comes 700 ms or more after t, the hold is still t + 700 and
    the raw label is the one classification gave. *)
Theorem tongue_hold_window (hypot : Q -> Q -> Q) (debug : bool)
  (st : Session) (fire : Tick) (mid : list Tick) (st1 : Session)
  (later : Tick) (ls : ExpressionSignals) :
  (forall tick st',
      onResult hypot debug st tick = Some st' ->
      colourFires hypot tick = false ->
      tongueHoldUntilRef st' = tongueHoldUntilRef st)
  /\ (passesGates st fire -> colourFires hypot fire = true ->
      exists st0,
        onResult hypot debug st fire = Some st0
        /\ tongueHoldUntilRef st0 = performanceNow fire + 700
        /\ rawExpressionLabel st0 = FREAKY
        /\ (runLoop hypot debug st0 mid = Some st1 ->
            Forall (fun tick => performanceNow fire <= performanceNow tick)
                   mid ->
            passesGates st1 later -> geometry hypot later = Some ls ->
            (performanceNow later - performanceNow fire < 700 ->
             0.08 < mouthOpen ls ->
             exists st2,
               onResult hypot debug st1 later = Some st2
               /\ rawExpressionLabel st2 = FREAKY)
            /\ (Forall (fun tick => colourFires hypot tick = false) mid ->
                colourFires hypot later = false ->
                700 <= performanceNow later - performanceNow fire ->
                exists c st2,
                  classifyFace hypot st1 later = Some (Some c)
                  /\ onResult hypot debug st1 later = Some st2
                  /\ rawExpressionLabel st2 = c_nextLabel c
                  /\ tongueHoldUntilRef st2 = performanceNow fire + 700))).
Proof.
  split.
  { intros tick st' Hstep Hquiet.
    destruct (onResult_hold_step hypot debug st tick st' Hstep)
      as [-> | [Hf _]]; [reflexivity | congruence]. }
  intros Hg Hfire.
  destruct (geometry hypot fire) as [ls0|] eqn:Hgeo0;
    [|unfold colourFires in Hfire; rewrite Hgeo0 in Hfire; discriminate].
  assert (Hf0 : fires ls0 (colourScore fire) = true).
  { unfold colourFires in Hfire. rewrite Hgeo0 in Hfire. exact Hfire. }
  destruct (onResult_face hypot debug st fire ls0 Hg Hgeo0)
    as (c0 & st0 & _ & Hst0 & Hh0 & Hl0).
  rewrite (tongueHold_fired _ _ _ _ _ Hf0) in Hh0, Hl0.
  cbn [fst snd] in Hh0, Hl0.
  exists st0. split_and!; [exact Hst0 | exact Hh0 | exact Hl0 |].
  intros Hrun Hmono Hg1 Hgeo.
  destruct (onResult_face hypot debug st1 later ls Hg1 Hgeo)
    as (c & st2 & Hc & Hst2 & Hh2 & Hl2).
  split.
  - intros Hin Hopen. exists st2. split; [exact Hst2|].
    rewrite Hl2. apply tongueHold_active; [|exact Hopen].
    assert (Hkept : performanceNow fire + 700 <= tongueHoldUntilRef st1).
    { apply (runLoop_hold_kept hypot debug _ mid st0 st1 Hmono Hrun).
      rewrite Hh0. lra. }
    lra.
  - intros Hquiet Hquiet' Hout.
    assert (Hsame : tongueHoldUntilRef st1 = performanceNow fire + 700).
    { rewrite (runLoop_hold_unchanged hypot debug mid st0 st1 Hquiet Hrun).
      exact Hh0. }
    assert (Hf : fires ls (colourScore later) = false).
    { unfold colourFires in Hquiet'. rewrite Hgeo in Hquiet'. exact Hquiet'. }
    rewrite Hsame in Hh2, Hl2.
    rewrite tongueHold_released in Hh2, Hl2 by (try exact Hf; lra).
    exists c, st2. split_and!; assumption.
Qed.

(** Witness of the amended C3: a red mouth at 1000 ms, dark frames with
    an open mouth at 1100 ms and 1699 ms; and a blendshape frame with a
    tongue score, which leaves the hold at 0. *)
Lemma tongue_hold_window_witness :
  tongueHoldUntilRef
    (default initialSession
       (onResult hypotAxis false initialSession
                 (frame 1000 dark [face 0.08] [tongueShown])))
  = tongueHoldUntilRef initialSession
  /\ exists st0 st2,
    onResult hypotAxis false initialSession
             (frame 1000 tongueRed [face 0.2] []) = Some st0
    /\ tongueHoldUntilRef st0 = 1000 + 700
    /\ onResult hypotAxis false
                (default initialSession
                   (runLoop hypotAxis false initialSession
                      [frame 1000 tongueRed [face 0.2] [];
                       frame 1100 dark [face 0.08] []]))
                (frame 1699 dark [face 0.08] []) = Some st2
    /\ rawExpressionLabel st2 = FREAKY.
Proof.
  pose proof (tongue_hold_window
                hypotAxis false initialSession
                (frame 1000 tongueRed [face 0.2] [])
                [frame 1100 dark [face 0.08] []]
                (default initialSession
                   (runLoop hypotAxis false initialSession
                      [frame 1000 tongueRed [face 0.2] [];
                       frame 1100 dark [face 0.08] []]))
                (frame 1699 dark [face 0.08] [])
                (default (mkSignals 0 0 0 0)
                   (geometry hypotAxis (frame 1699 dark [face 0.08] []))))
    as [Hquiet Hwindow].
  split.
  { destruct (onResult hypotAxis false initialSession
                       (frame 1000 dark [face 0.08] [tongueShown]))
      as [st'|] eqn:Hstep; [|reflexivity].
    apply (Hquiet _ st' Hstep). vm_compute. reflexivity. }
  destruct Hwindow as (st0 & H0 & Hh0 & _ & Hlater).
  - exists (camera 1000 tongueRed).
    split_and!; [reflexivity | simpl; lia | reflexivity..].
  - vm_compute. reflexivity.
  - exists st0. destruct Hlater as [Hactive _].
    + change (runLoop hypotAxis false initialSession
                [frame 1000 tongueRed [face 0.2] [];
                 frame 1100 dark [face 0.08] []])
        with (match onResult hypotAxis false initialSession
                      (frame 1000 tongueRed [face 0.2] []) with
              | Some s => runLoop hypotAxis false s
                            [frame 1100 dark [face 0.08] []]
              | None => None
              end).
      rewrite H0. vm_compute in H0. injection H0 as <-.
      vm_compute. reflexivity.
    + constructor; [vm_compute; discriminate | constructor].
    + exists (camera 1699 dark).
      split_and!; [reflexivity | simpl; lia | vm_compute; reflexivity
                  | reflexivity].
    + vm_compute. reflexivity.
    + destruct Hactive as (st2 & H2 & Hraw).
      * vm_compute. reflexivity.
      * vm_compute. reflexivity.
      * exists st2. split_and!; assumption.
Defined.

(** * Further properties *)

(** ** EmaSmoother and SignalSmoother *)

Lemma emaRun_cons s x xs :
  snd (emaRun s (x :: xs))
  = snd (EmaSmoother.update s x)
    :: snd (emaRun (fst (EmaSmoother.update s x)) xs).
Proof.
  cbn [emaRun]. destruct (EmaSmoother.update s x) as [s1 out].
  cbn [fst snd]. destruct (emaRun s1 xs). reflexivity.
Qed.

(** Two smoothers with the same alpha, the first holding no more than
    the second, fed inputs in the same order, return values in that
    order. *)
Lemma emaRun_ordered xs ys :
  Forall2 Qle xs ys ->
  forall s s',
    EmaSmoother.alpha s = EmaSmoother.alpha s' ->
    0 <= EmaSmoother.alpha s <= 1 ->
    match EmaSmoother.value s, EmaSmoother.value s' with
    | None, None => True
    | Some v, Some v' => v <= v'
    | _, _ => False
    end ->
    Forall2 Qle (snd (emaRun s xs)) (snd (emaRun s' ys)).
Proof.
  induction 1 as [|x y xs ys Hxy _ IH]; intros [a v] [a' v'] Ha Hr Hv;
    cbn [EmaSmoother.alpha EmaSmoother.value] in Ha, Hr, Hv; subst a'.
  - constructor.
  - rewrite !emaRun_cons. unfold EmaSmoother.update.
    cbn [EmaSmoother.alpha EmaSmoother.value].
    destruct v as [v|], v' as [v'|]; try contradiction; cbn [fst snd].
    + assert (Hout : a * x + (1 - a) * v <= a * y + (1 - a) * v') by nra.
      constructor; [exact Hout|].
      apply IH; [reflexivity | exact Hr | exact Hout].
    + constructor; [exact Hxy|].
      apply IH; [reflexivity | exact Hr | exact Hxy].
Qed.

(** X1.  An [EmaSmoother] with alpha in [0, 1] preserves order: the
    first value it returns is its first input, and of two fresh
    smoothers with the same alpha, the one fed the inputs that are never
    greater never returns the greater value. *)
Theorem ema_preserves_order (alpha : Q) (xs ys : list Q) :
  0 <= alpha <= 1 ->
  Forall2 Qle xs ys ->
  head (snd (emaRun (EmaSmoother.new (Some alpha)) xs)) = head xs
  /\ Forall2 Qle (snd (emaRun (EmaSmoother.new (Some alpha)) xs))
                 (snd (emaRun (EmaSmoother.new (Some alpha)) ys)).
Proof.
  intros Ha Hle. split.
  - destruct xs as [|x xs]; [reflexivity|]. rewrite emaRun_cons. reflexivity.
  - apply emaRun_ordered; [exact Hle | reflexivity | exact Ha | exact I].
Qed.

(** Witness of X1: three frames of two signals at the pipeline's
    alpha. *)
Lemma ema_preserves_order_witness :
  Forall2 Qle (snd (emaRun (EmaSmoother.new (Some 0.25)) [0.3; 0.5; 0.2]))
              (snd (emaRun (EmaSmoother.new (Some 0.25)) [0.4; 0.5; 0.6])).
Proof.
  refine (proj2 (ema_preserves_order 0.25 [0.3; 0.5; 0.2] [0.4; 0.5; 0.6]
                                     _ _)).
  - split; vm_compute; discriminate.
  - repeat constructor; vm_compute; discriminate.
Defined.

Ltac in_list :=
  cbn; repeat (apply list_elem_of_here || apply list_elem_of_further).

Lemma step_eq s output k v :
  k ∉ objectPrototypeKeys ->
  SignalSmoother.step (s, output) (k, v)
  = Some ({| SignalSmoother.smoothers :=
               <[k := fst (EmaSmoother.update (smootherOf s k) v)]>
                 (SignalSmoother.smoothers s);
             SignalSmoother.alpha := SignalSmoother.alpha s |},
          <[k := snd (EmaSmoother.update (smootherOf s k) v)]> output).
Proof.
  intros Hk. unfold SignalSmoother.step, smootherOf, get.
  destruct (SignalSmoother.smoothers s !! k); cbn [default].
  - cbn [mbind option_bind]. destruct (EmaSmoother.update _ v). reflexivity.
  - rewrite bool_decide_eq_false_2 by exact Hk. cbn [mbind option_bind].
    destruct (EmaSmoother.update _ v). reflexivity.
Qed.

Lemma step_inherited s output k v :
  k ∈ objectPrototypeKeys -> SignalSmoother.smoothers s !! k = None ->
  SignalSmoother.step (s, output) (k, v) = None.
Proof.
  intros Hk Hnone. unfold SignalSmoother.step, get.
  rewrite Hnone, bool_decide_eq_true_2 by exact Hk. reflexivity.
Qed.

Lemma step_others s output k v s' output' k' :
  SignalSmoother.step (s, output) (k, v) = Some (s', output') ->
  k' <> k ->
  SignalSmoother.smoothers s' !! k' = SignalSmoother.smoothers s !! k'.
Proof.
  unfold SignalSmoother.step. intros Hstep Hne.
  destruct (match get (SignalSmoother.smoothers s) k with
            | own e => Some e
            | inherited _ => None
            | undefined => Some (EmaSmoother.new (Some (SignalSmoother.alpha s)))
            end) as [sm|]; [|discriminate].
  cbn [mbind option_bind] in Hstep.
  destruct (EmaSmoother.update sm v) as [sm' out].
  apply (inj Some) in Hstep. apply (f_equal fst) in Hstep. cbn [fst] in Hstep.
  subst s'. cbn [SignalSmoother.smoothers].
  apply lookup_insert_ne. congruence.
Qed.

Lemma loop_spec (signals : list (string * Q)) :
  forall (s : SignalSmoother.t) (output : gmap string Q),
    NoDup signals.*1 ->
    Forall (fun entry => entry.1 ∉ objectPrototypeKeys) signals ->
    exists s' output',
      SignalSmoother.loop (s, output) signals = Some (s', output')
      /\ SignalSmoother.alpha s' = SignalSmoother.alpha s
      /\ (forall k, k ∉ signals.*1 ->
            SignalSmoother.smoothers s' !! k = SignalSmoother.smoothers s !! k
            /\ output' !! k = output !! k)
      /\ (forall k v, (k, v) ∈ signals ->
            SignalSmoother.smoothers s' !! k
            = Some (fst (EmaSmoother.update (smootherOf s k) v))
            /\ output' !! k
               = Some (snd (EmaSmoother.update (smootherOf s k) v))).
Proof.
  induction signals as [|[k0 v0] rest IH]; intros s output Hnd Hsafe.
  - exists s, output.
    split_and!; [reflexivity | reflexivity | intros; split; reflexivity |].
    intros k v Hin. apply elem_of_nil in Hin. destruct Hin.
  - rewrite fmap_cons in Hnd. cbn [fst] in Hnd.
    apply NoDup_cons in Hnd as [Hk0 Hnd].
    apply Forall_cons in Hsafe as [Hs0 Hsafe]. cbn [fst] in Hs0.
    cbn [SignalSmoother.loop]. rewrite (step_eq _ _ _ _ Hs0).
    cbn [mbind option_bind].
    set (s1 := SignalSmoother.mk _ _). set (out1 := <[k0 := _]> output).
    destruct (IH s1 out1 Hnd Hsafe)
      as (s' & output' & Hloop & Halpha & Hother & Hmine).
    exists s', output'. split_and!.
    + exact Hloop.
    + rewrite Halpha. reflexivity.
    + intros k Hk. rewrite fmap_cons in Hk. cbn [fst] in Hk.
      apply not_elem_of_cons in Hk as [Hne Hk].
      destruct (Hother k Hk) as [-> ->]. subst s1 out1.
      cbn [SignalSmoother.smoothers]. rewrite !lookup_insert_ne by congruence.
      split; reflexivity.
    + intros k v Hin. apply elem_of_cons in Hin as [Heq | Hin].
      * injection Heq as -> ->. destruct (Hother k0 Hk0) as [-> ->].
        subst s1 out1. cbn [SignalSmoother.smoothers].
        rewrite !lookup_insert_eq. split; reflexivity.
      * assert (Hne : k0 <> k).
        { intros ->. apply Hk0. apply list_elem_of_fmap. exists (k, v). auto. }
        destruct (Hmine k v Hin) as [-> ->].
        assert (Hsame : smootherOf s1 k = smootherOf s k).
        { unfold smootherOf. subst s1.
          cbn [SignalSmoother.smoothers SignalSmoother.alpha].
          rewrite lookup_insert_ne by exact Hne. reflexivity. }
        rewrite Hsame. split; reflexivity.
Qed.

Lemma loop_throws (signals : list (string * Q)) k v :
  (k, v) ∈ signals -> k ∈ objectPrototypeKeys ->
  forall (s : SignalSmoother.t) (output : gmap string Q),
    SignalSmoother.smoothers s !! k = None ->
    SignalSmoother.loop (s, output) signals = None.
Proof.
  intros Hin Hk.
  induction signals as [|[k0 v0] rest IH]; intros s output Hnone.
  - apply elem_of_nil in Hin. destruct Hin.
  - cbn [SignalSmoother.loop].
    destruct (SignalSmoother.step (s, output) (k0, v0)) as [[s1 out1]|] eqn:Hstep;
      [|reflexivity].
    cbn [mbind option_bind].
    destruct (decide (k = k0)) as [->|Hne].
    + rewrite (step_inherited s output k0 v0 Hk Hnone) in Hstep. discriminate.
    + apply elem_of_cons in Hin as [Heq | Hin]; [congruence|].
      apply (IH Hin).
      rewrite (step_others _ _ _ _ _ _ k Hstep Hne). exact Hnone.
Qed.

(** X3.  [SignalSmoother.update] on signals with distinct keys, none of
    them a name inherited from Object.prototype, treats each key on its
    own: the value written under a key is what that key's [EmaSmoother]
    (a fresh one with the object's alpha on first sight) returns for the
    key's input, that smoother is the only one advanced for it,
    smoothers of keys absent from the input are left as they were, and
    the output has exactly the input's keys.  A signal under an
    inherited name such as "constructor", for which the object owns no
    smoother, makes the call throw. *)
Theorem signal_smoother_keys_independent (s : SignalSmoother.t)
  (signals : list (string * Q)) :
  NoDup signals.*1 ->
  (Forall (fun entry => entry.1 ∉ objectPrototypeKeys) signals ->
   exists s' output,
     SignalSmoother.update s signals = Some (s', output)
     /\ SignalSmoother.alpha s' = SignalSmoother.alpha s
     /\ (forall k v, (k, v) ∈ signals ->
           output !! k = Some (snd (EmaSmoother.update (smootherOf s k) v))
           /\ SignalSmoother.smoothers s' !! k
              = Some (fst (EmaSmoother.update (smootherOf s k) v)))
     /\ (forall k, k ∉ signals.*1 ->
           output !! k = None
           /\ SignalSmoother.smoothers s' !! k
              = SignalSmoother.smoothers s !! k))
  /\ (forall k v,
        (k, v) ∈ signals -> k ∈ objectPrototypeKeys ->
        SignalSmoother.smoothers s !! k = None ->
        SignalSmoother.update s signals = None).
Proof.
  intros Hnd. unfold SignalSmoother.update. split.
  - intros Hsafe.
    destruct (loop_spec signals s (list_to_map signals) Hnd Hsafe)
      as (s' & output & Hloop & Halpha & Hother & Hmine).
    exists s', output. split_and!; [exact Hloop | exact Halpha | |].
    + intros k v Hin. destruct (Hmine k v Hin) as [-> ->]. split; reflexivity.
    + intros k Hk. destruct (Hother k Hk) as [-> ->].
      split; [|reflexivity]. apply not_elem_of_list_to_map_1, Hk.
  - intros k v Hin Hk Hnone. apply (loop_throws signals k v Hin Hk), Hnone.
Qed.

(** Witness of X3: two signals on a fresh smoother, and a signal named
    "constructor". *)
Lemma signal_smoother_keys_independent_witness :
  (exists s' output,
      SignalSmoother.update (SignalSmoother.new None)
                            [("smile", 0.5); ("eyeOpen", 0.2)]%string
      = Some (s', output)
      /\ output !! "jaw"%string = None)
  /\ SignalSmoother.update (SignalSmoother.new None)
                           [("smile", 0.5); ("constructor", 0.2)]%string
     = None.
Proof.
  split.
  - destruct (proj1 (signal_smoother_keys_independent
                       (SignalSmoother.new None)
                       [("smile", 0.5); ("eyeOpen", 0.2)]%string
                       ltac:(cbn; repeat constructor;
                             rewrite ?not_elem_of_cons; repeat split;
                             try discriminate; apply not_elem_of_nil)))
      as (s' & output & Hup & _ & _ & Hother).
    + repeat constructor; cbn [fst];
        apply (proj1 (bool_decide_eq_false _)); vm_compute; reflexivity.
    + exists s', output. split; [exact Hup|].
      apply (Hother "jaw"%string). cbn. rewrite !not_elem_of_cons.
      repeat split; try discriminate. apply not_elem_of_nil.
  - refine (proj2 (signal_smoother_keys_independent
                     (SignalSmoother.new None)
                     [("smile", 0.5); ("constructor", 0.2)]%string _)
                  "constructor"%string 0.2 _ _ _).
    + cbn. repeat constructor;
        rewrite ?not_elem_of_cons; repeat split; try discriminate;
        apply not_elem_of_nil.
    + in_list.
    + unfold objectPrototypeKeys. in_list.
    + reflexivity.
Defined.

Lemma entriesOf_NoDup raw : NoDup (entriesOf raw).*1.
Proof.
  cbn. repeat constructor; rewrite ?elem_of_cons, ?elem_of_nil;
    intros H; decompose [or] H; discriminate || tauto.
Qed.

(** What the pipeline's call of the smoother returns, signal by signal,
    and the smoother it leaves under each key. *)
Lemma smooth_field sm raw :
  exists sm' out,
    smooth sm raw = Some (sm', out)
    /\ faceW out
       = snd (EmaSmoother.update (smootherOf sm "faceW") (faceW raw))
    /\ mouthOpen out
       = snd (EmaSmoother.update (smootherOf sm "mouthOpen") (mouthOpen raw))
    /\ smile out
       = snd (EmaSmoother.update (smootherOf sm "smile") (smile raw))
    /\ eyeOpen out
       = snd (EmaSmoother.update (smootherOf sm "eyeOpen") (eyeOpen raw))
    /\ (forall k v, (k, v) ∈ entriesOf raw ->
          smootherOf sm' k = fst (EmaSmoother.update (smootherOf sm k) v)).
Proof.
  destruct (loop_spec (entriesOf raw) sm (list_to_map (entriesOf raw))
                      (entriesOf_NoDup raw) (entriesOf_safe raw))
    as (sm' & output & Hloop & _ & _ & Hmine).
  unfold smooth, SignalSmoother.update. rewrite Hloop.
  cbn [mbind option_bind].
  eexists _, _. split; [reflexivity|].
  unfold signalsOf. cbn [faceW mouthOpen smile eyeOpen].
  split_and!.
  - destruct (Hmine "faceW"%string (faceW raw)) as [_ ->];
      [in_list | reflexivity].
  - destruct (Hmine "mouthOpen"%string (mouthOpen raw)) as [_ ->];
      [in_list | reflexivity].
  - destruct (Hmine "smile"%string (smile raw)) as [_ ->];
      [in_list | reflexivity].
  - destruct (Hmine "eyeOpen"%string (eyeOpen raw)) as [_ ->];
      [in_list | reflexivity].
  - intros k v Hin. destruct (Hmine k v Hin) as [Hsm _].
    unfold smootherOf at 1. rewrite Hsm. reflexivity.
Qed.

(** X4.  The signals of the first frame a [SignalSmoother] sees come
    back unchanged; those of the second frame come back, signal by
    signal, as alpha * second + (1 - alpha) * first. *)
Theorem smooth_first_two_frames (alpha : Q) (first second : ExpressionSignals) :
  exists sm1 sm2 out,
    smooth (SignalSmoother.new (Some alpha)) first = Some (sm1, first)
    /\ smooth sm1 second = Some (sm2, out)
    /\ faceW out == alpha * faceW second + (1 - alpha) * faceW first
    /\ mouthOpen out
       == alpha * mouthOpen second + (1 - alpha) * mouthOpen first
    /\ smile out == alpha * smile second + (1 - alpha) * smile first
    /\ eyeOpen out == alpha * eyeOpen second + (1 - alpha) * eyeOpen first.
Proof.
  destruct (smooth_field (SignalSmoother.new (Some alpha)) first)
    as (sm1 & out1 & H1 & Hw & Hm & Hs & He & Hsm).
  destruct (smooth_field sm1 second)
    as (sm2 & out & H2 & Hw2 & Hm2 & Hs2 & He2 & _).
  exists sm1, sm2, out. split_and!.
  - rewrite H1. do 2 f_equal.
    destruct out1 as [w m sm e]. cbn in Hw, Hm, Hs, He.
    subst. destruct first; reflexivity.
  - exact H2.
  - rewrite Hw2, (Hsm "faceW"%string (faceW first)) by in_list. reflexivity.
  - rewrite Hm2, (Hsm "mouthOpen"%string (mouthOpen first)) by in_list.
    reflexivity.
  - rewrite Hs2, (Hsm "smile"%string (smile first)) by in_list. reflexivity.
  - rewrite He2, (Hsm "eyeOpen"%string (eyeOpen first)) by in_list.
    reflexivity.
Qed.

(** ** LabelStabilizer: a sustained label is accepted *)

Section StabilizerLiveness.

Context {T : Type} `{EqDecision T}.

Import LabelStabilizer.

Lemma pendingFrames_nonneg (initial : T) sf cd calls :
  (0 <= pendingFrames (after (new initial sf cd) calls))%Z.
Proof.
  induction calls as [|[l t] calls IH] using rev_ind; [cbn; lia|].
  rewrite after_snoc. revert IH.
  generalize (after (new initial sf cd) calls). intros s Hs.
  unfold update. repeat (case_decide || case_match); cbn; lia.
Qed.

Lemma counting_step (s0 s : LabelStabilizer.t T) (l : T) (j : nat) (t : Q) :
  l <> current s0 ->
  cooldownMs s0 <= t - lastSwitchAt s0 ->
  (j = 0%nat -> s = s0 /\ (0 <= pendingFrames s0)%Z) ->
  ((0 < j)%nat -> counting s0 l j s) ->
  counting s0 l (S j) (fst (update s l t)).
Proof.
  intros Hne Hcool Hzero Hpos.
  destruct j as [|j].
  - destruct (Hzero eq_refl) as [-> Hpf]. unfold counting, update.
    rewrite decide_False by exact Hne.
    destruct (decide (Some l <> pending s0)) as [Hp|Hp]; cbn.
    + split; [reflexivity|]. right. split_and!; try reflexivity; lia.
    + apply dec_stable in Hp.
      destruct (_ && _) eqn:Hc; cbn; [auto|].
      split; [reflexivity|]. right. split_and!; auto; lia.
  - destruct (Hpos ltac:(lia)) as (Hsf & [Hdone | (Hcur & Hpen & Hcount & Hlast & Hcd & _)]).
    + unfold counting, update. rewrite decide_True by (symmetry; exact Hdone).
      cbn. auto.
    + unfold counting, update. rewrite Hcur.
      rewrite decide_False by exact Hne.
      rewrite decide_False by (rewrite Hpen; auto).
      rewrite Hlast, Hcd, Hsf.
      assert (Hq : Qgeb (t - lastSwitchAt s0) (cooldownMs s0) = true)
        by (apply Qgeb_ge; exact Hcool).
      rewrite Hq, andb_true_r.
      destruct (_ <=? _)%Z eqn:Hfr; cbn; [auto|].
      apply Z.leb_gt in Hfr.
      split; [reflexivity|]. right. split_and!; auto; lia.
Qed.

Lemma counting_run (s0 : LabelStabilizer.t T) (l : T) (times : list Q) :
  l <> current s0 ->
  (0 <= pendingFrames s0)%Z ->
  Forall (fun t => cooldownMs s0 <= t - lastSwitchAt s0) times ->
  (0 < length times)%nat ->
  counting s0 l (length times) (after s0 (map (fun t => (l, t)) times)).
Proof.
  intros Hne Hpf.
  induction times as [|t times IH] using rev_ind; intros Hall Hlen.
  - cbn in Hlen. lia.
  - apply Forall_app in Hall as [Hall Ht]. apply Forall_inv in Ht.
    rewrite map_app, length_app. cbn [map length].
    rewrite after_snoc. rewrite Nat.add_1_r.
    apply counting_step; [exact Hne | exact Ht | |].
    + intros Hz. apply length_zero_iff_nil in Hz. subst times. cbn. auto.
    + intros Hp. apply IH; assumption.
Qed.

End StabilizerLiveness.

(** X5.  A label other than the current one that is fed to a stabilizer
    at least [stableFrames] times in a row, and at least twice, at times
    that all satisfy the cooldown, is the current label afterwards. *)
Theorem stabilizer_sustained_label_commits {T : Type} `{EqDecision T}
  (initial l : T) (sf : option Z) (cd : option Q) (pre : list (T * Q))
  (times : list Q) :
  let s := after (LabelStabilizer.new initial sf cd) pre in
  l <> LabelStabilizer.current s ->
  (2 <= length times)%nat ->
  (LabelStabilizer.stableFrames s <= Z.of_nat (length times))%Z ->
  Forall (fun t => LabelStabilizer.cooldownMs s
                   <= t - LabelStabilizer.lastSwitchAt s) times ->
  LabelStabilizer.current (after s (map (fun t => (l, t)) times)) = l.
Proof.
  intros s Hne Hlen Hsf Hall.
  destruct (counting_run s l times Hne (pendingFrames_nonneg initial sf cd pre)
                         Hall ltac:(lia))
    as (_ & [Hdone | (_ & _ & Hcount & _ & _ & Hlt)]); [exact Hdone|].
  specialize (Hlt Hlen). lia.
Qed.

(** Witness of X5: the pipeline's stabilizer, five SMILE frames. *)
Lemma stabilizer_sustained_label_commits_witness :
  LabelStabilizer.current
    (after (after (LabelStabilizer.new NEUTRAL (Some 5%Z) (Some 600)) [])
           (map (fun t => (SMILE, t)) [610; 690; 770; 850; 930]))
  = SMILE.
Proof.
  apply (stabilizer_sustained_label_commits
           NEUTRAL SMILE (Some 5%Z) (Some 600) [] [610; 690; 770; 850; 930]).
  - discriminate.
  - cbn. lia.
  - cbn. lia.
  - repeat constructor; vm_compute; discriminate.
Defined.

(** ** The threshold classifier with non-negative thresholds *)

(** X6.  With non-negative scream, smile and mouth-ceiling thresholds
    [classifyExpression] is first-match-wins: SCREAM exactly when
    mouthOpen exceeds the scream threshold; SMILE exactly when it does
    not, smile exceeds its threshold and mouthOpen is below the ceiling;
    SQUINT exactly when neither holds and eyeOpen is below the squint
    threshold; NEUTRAL exactly when none holds; never FREAKY. *)
Theorem classifyExpression_first_match (signals : ExpressionSignals)
  (th : Thresholds.t) :
  0 <= Thresholds.mouthOpenScream th ->
  0 <= Thresholds.smile th ->
  0 <= Thresholds.mouthOpenSmileMax th ->
  let scream := Thresholds.mouthOpenScream th < mouthOpen signals in
  let smiling := Thresholds.smile th < smile signals
                 /\ mouthOpen signals < Thresholds.mouthOpenSmileMax th in
  let squint := eyeOpen signals < Thresholds.eyeOpenSquint th in
  (classifyExpression signals th = SCREAM <-> scream)
  /\ (classifyExpression signals th = SMILE <-> ~ scream /\ smiling)
  /\ (classifyExpression signals th = SQUINT
      <-> ~ scream /\ ~ smiling /\ squint)
  /\ (classifyExpression signals th = NEUTRAL
      <-> ~ scream /\ ~ smiling /\ ~ squint)
  /\ classifyExpression signals th <> FREAKY.
Proof.
  intros H1 H2 H3 scream smiling squint.
  pose proof (screamTriggered_positive signals th H1) as Hsc.
  pose proof (smileTriggered_positive signals th H2) as Hsm.
  pose proof (mouthOk_positive signals th H3) as Hok.
  pose proof (squintTriggered_any_sign signals th) as Hsq.
  fold scream in Hsc. fold squint in Hsq.
  assert (Hsmiling : smileTriggered signals th && mouthOk signals th = true
                     <-> smiling).
  { rewrite andb_true_iff, Hsm, Hok. reflexivity. }
  unfold classifyExpression.
  destruct (screamTriggered signals th);
    [|destruct (smileTriggered signals th && mouthOk signals th);
      [|destruct (squintTriggered signals th)]];
    split_and!; try (split; [discriminate || intro | intro]);
    try discriminate; try reflexivity; intuition congruence.
Qed.

(** Witness of X6: the default thresholds. *)
Lemma classifyExpression_first_match_witness :
  classifyExpression (mkSignals 1 0.1 0.7 0.5) defaultThresholds <> FREAKY.
Proof.
  refine (proj2 (proj2 (proj2 (proj2 (classifyExpression_first_match
                                        (mkSignals 1 0.1 0.7 0.5)
                                        defaultThresholds _ _ _)))));
    vm_compute; discriminate.
Defined.

(** ** The registry and the keys the pipeline asks for *)

Lemma MEMES_keys k asset : MEMES !! k = Some asset -> key asset = k.
Proof.
  unfold MEMES, MEMES_entries. intros Hk.
  apply elem_of_list_to_map_2 in Hk.
  repeat (apply elem_of_cons in Hk as [Hk | Hk];
          [injection Hk as -> ->; reflexivity|]).
  apply elem_of_nil in Hk. destruct Hk.
Qed.

Lemma neutral_registered :
  get MEMES DEFAULT_MEME_KEY
  = own (mkAsset "neutral" MemeType.image "/memes/neutral.jpeg").
Proof. vm_compute. reflexivity. Qed.

(** X7.  Every asset is registered under its own [key].  For a key that
    is not a name inherited from Object.prototype, [getMeme] returns an
    asset, of that key or of key "neutral"; for an inherited name it
    returns the inherited member.  [listMemes] lists the eleven assets
    in the order of the literal, and each is the one [getMeme] returns
    for its key.  The keys "neutral", "smile", "scream", "judging" and
    "grin" that the pipeline selects are registered; "freaky", the key
    of the FREAKY label, is not, and is answered with the neutral
    asset. *)
Theorem registry_keys_round_trip :
  (forall k asset, MEMES !! k = Some asset -> key asset = k)
  /\ (forall k, k ∉ objectPrototypeKeys ->
        exists asset,
          getMeme k = own asset
          /\ (key asset = k
              \/ (MEMES !! k = None /\ key asset = "neutral"%string)))
  /\ (forall k, k ∈ objectPrototypeKeys -> getMeme k = inherited k)
  /\ (forall asset, asset ∈ listMemes -> getMeme (key asset) = own asset)
  /\ key <$> listMemes
     = ["neutral"; "smile"; "grin"; "scream"; "judging"; "tilt_left";
        "tilt_right"; "look_left"; "look_right"; "look_up";
        "look_down"]%string
  /\ (forall label, label <> FREAKY ->
        exists asset,
          getMeme (mapExpressionToMeme label) = own asset
          /\ key asset = mapExpressionToMeme label)
  /\ (exists asset, getMeme "grin" = own asset /\ key asset = "grin"%string)
  /\ getMeme (mapExpressionToMeme FREAKY)
     = own (mkAsset "neutral" MemeType.image "/memes/neutral.jpeg").
Proof.
  split_and!.
  - exact MEMES_keys.
  - intros k Hk. unfold getMeme, get.
    destruct (MEMES !! k) as [a|] eqn:Hown.
    + exists a. split; [reflexivity|]. left. apply MEMES_keys, Hown.
    + rewrite bool_decide_eq_false_2 by exact Hk.
      fold (get MEMES DEFAULT_MEME_KEY). rewrite neutral_registered.
      eexists. split; [reflexivity|]. right. split; reflexivity.
  - intros k Hk. unfold objectPrototypeKeys in Hk.
    repeat (apply elem_of_cons in Hk as [-> | Hk]; [vm_compute; reflexivity|]).
    apply elem_of_nil in Hk. destruct Hk.
  - intros asset Hin. unfold listMemes, MEMES_entries in Hin.
    cbn [fmap list_fmap snd] in Hin.
    repeat (apply elem_of_cons in Hin as [-> | Hin];
            [vm_compute; reflexivity|]).
    apply elem_of_nil in Hin. destruct Hin.
  - reflexivity.
  - intros [] Hl; try (eexists; split; vm_compute; reflexivity). congruence.
  - eexists. split; vm_compute; reflexivity.
  - vm_compute. reflexivity.
Qed.

(** Witness of X7: the key "scream", which is no inherited name. *)
Lemma registry_keys_round_trip_witness :
  exists asset,
    getMeme "scream" = own asset
    /\ (key asset = "scream"%string
        \/ (MEMES !! "scream"%string = None /\ key asset = "neutral"%string)).
Proof.
  apply (proj1 (proj2 registry_keys_round_trip) "scream"%string).
  apply (proj1 (bool_decide_eq_false _)). vm_compute. reflexivity.
Defined.

(** ** Signal extraction *)

Lemma Qdiv_nonneg a b : 0 <= a -> 0 < b -> 0 <= a / b.
Proof.
  intros Ha Hb. apply Qle_shift_div_l; [exact Hb|]. lra.
Qed.






Lemma getScore_nonneg categories name :
  Forall (fun e => 0 <= score e) categories ->
  0 <= default 0 (getScore categories name).
Proof.
  unfold getScore. induction 1 as [|e es He _ IH]; cbn [List.find default].
  - lra.
  - destruct (bool_decide _); [exact He | exact IH].
Qed.

(** X9.  When no category has a negative score, the signals
    [computeBlendshapeSignals] returns are normalised: mouthOpen, smile
    and eyeOpen lie in [0, 1] and the face width is 1. *)
Theorem blendshape_signals_normalised
  (categories : list BlendshapeCategory) (signals : ExpressionSignals) :
  Forall (fun e => 0 <= score e) categories ->
  computeBlendshapeSignals (Some categories) = Some signals ->
  0 <= mouthOpen signals <= 1
  /\ 0 <= smile signals <= 1
  /\ 0 <= eyeOpen signals <= 1
  /\ faceW signals = 1.
Proof.
  intros Hpos. unfold computeBlendshapeSignals.
  destruct categories as [|e es]; [discriminate|].
  intros Hs. apply (inj Some) in Hs. subst signals.
  cbn [mouthOpen smile eyeOpen faceW].
  pose proof (getScore_nonneg (e :: es) "jawOpen" Hpos).
  pose proof (getScore_nonneg (e :: es) "mouthFunnel" Hpos).
  pose proof (getScore_nonneg (e :: es) "mouthSmileLeft" Hpos).
  pose proof (getScore_nonneg (e :: es) "mouthSmileRight" Hpos).
  pose proof (getScore_nonneg (e :: es) "eyeSquintLeft" Hpos).
  pose proof (getScore_nonneg (e :: es) "eyeSquintRight" Hpos).
  split_and!; try reflexivity.
  - apply Q.min_glb; lra.
  - apply Q.le_min_l.
  - apply Q.min_glb; [lra|]. apply Qdiv_nonneg; lra.
  - apply Q.le_min_l.
  - apply Q.le_max_l.
  - apply Q.max_lub; [lra|].
    assert (0 <= (default 0 (getScore (e :: es) "eyeSquintLeft")
                  + default 0 (getScore (e :: es) "eyeSquintRight")) / 2)
      by (apply Qdiv_nonneg; lra).
    lra.
Qed.

(** Witness of X9: the wide-open mouth. *)
Lemma blendshape_signals_normalised_witness :
  0 <= mouthOpen (mkSignals 1 (Qmin 1 (0.4 + 0.02 * 0.5))
                            (Qmin 1 ((0.1 + 0.1) / 2))
                            (Qmax 0 (1 - (0 + 0) / 2))) <= 1.
Proof.
  refine (proj1 (blendshape_signals_normalised wideOpen _ _ _)).
  - repeat constructor; vm_compute; discriminate.
  - reflexivity.
Defined.

(** ** The calibration accumulator *)

Lemma calibrateAll_count (frames : list ExpressionSignals) :
  count (calibrateAll (calibrationRef initialSession) frames)
  = Z.of_nat (Nat.min 15 (length frames)).
Proof.
  induction frames as [|x frames IH] using rev_ind; [reflexivity|].
  unfold calibrateAll in *. rewrite foldl_app. cbn [foldl].
  set (c := foldl calibrate (calibrationRef initialSession) frames) in *.
  rewrite length_app. cbn [length]. unfold calibrate.
  destruct (count c <? 15)%Z eqn:Hlt.
  - apply Z.ltb_lt in Hlt. cbn [count]. lia.
  - apply Z.ltb_ge in Hlt. lia.
Qed.

Lemma calibrateAll_full (c : Calibration) (later : list ExpressionSignals) :
  count c = 15%Z -> calibrateAll c later = c.
Proof.
  intros H15. induction later as [|x later IH]; [reflexivity|].
  unfold calibrateAll in *. cbn [foldl]. unfold calibrate at 2.
  rewrite H15. cbn [Z.ltb Z.compare Pos.compare Pos.compare_cont]. exact IH.
Qed.

(** X10.  Calibration takes the first 15 landmark frames and no more:
    after any number of frames its count is the number of frames seen,
    at most 15; the first frame is taken as the baseline as it is; the
    result depends on the first 15 frames only, and once 15 frames are
    in, further frames change nothing. *)
Theorem calibration_uses_first_15_frames (frames later : list ExpressionSignals) :
  let c := calibrateAll (calibrationRef initialSession) frames in
  count c = Z.of_nat (Nat.min 15 (length frames))
  /\ (forall x,
        frames = [x] ->
        faceW (baseline c) == faceW x
        /\ mouthOpen (baseline c) == mouthOpen x
        /\ smile (baseline c) == smile x
        /\ eyeOpen (baseline c) == eyeOpen x)
  /\ c = calibrateAll (calibrationRef initialSession) (take 15 frames)
  /\ ((15 <= length frames)%nat -> calibrateAll c later = c).
Proof.
  intros c. pose proof (calibrateAll_count frames) as Hc. fold c in Hc.
  split_and!.
  - exact Hc.
  - intros x ->. subst c. unfold calibrateAll, calibrate.
    cbn [foldl initialSession calibrationRef count baseline Z.ltb Z.compare
         faceW mouthOpen smile eyeOpen Z.add].
    change (inject_Z (0 + 1)) with 1.
    split_and!; field.
  - destruct (decide (15 <= length frames)%nat) as [Hlen|Hlen].
    + subst c. rewrite <- (take_drop 15 frames) at 1.
      unfold calibrateAll. rewrite foldl_app.
      apply (calibrateAll_full _ (drop 15 frames)).
      rewrite calibrateAll_count, length_take. lia.
    + rewrite take_ge by lia. reflexivity.
  - intros Hlen. apply calibrateAll_full. lia.
Qed.

(** Witness of X10: sixteen frames, then two more. *)
Lemma calibration_uses_first_15_frames_witness :
  calibrateAll
    (calibrateAll (calibrationRef initialSession)
                  (replicate 16 (mkSignals 1 0.2 0.5 0.3)))
    [mkSignals 1 0.9 0.9 0.9; mkSignals 1 0.1 0.1 0.1]
  = calibrateAll (calibrationRef initialSession)
                 (replicate 16 (mkSignals 1 0.2 0.5 0.3)).
Proof.
  apply (calibration_uses_first_15_frames
           (replicate 16 (mkSignals 1 0.2 0.5 0.3))
           [mkSignals 1 0.9 0.9 0.9; mkSignals 1 0.1 0.1 0.1]).
  cbn. lia.
Defined.

(** ** The extremes tracker and the landmark branch *)

Lemma widen_envelope extremes smoothSignals :
  signalsLe (fst (widen extremes smoothSignals)) smoothSignals
  /\ signalsLe smoothSignals (snd (widen extremes smoothSignals))
  /\ (forall m, Extremes.min extremes = Some m ->
                signalsLe (fst (widen extremes smoothSignals)) m)
  /\ (forall m, Extremes.max extremes = Some m ->
                signalsLe m (snd (widen extremes smoothSignals))).
Proof.
  unfold widen, signalsLe. cbn [fst snd faceW mouthOpen smile eyeOpen].
  split_and!; try apply Q.le_min_r; try apply Q.le_max_r;
    intros m ->; cbn [default]; split_and!;
    apply Q.le_min_l || apply Q.le_max_l.
Qed.

(** X11.  The landmark branch keeps a running envelope: after it the
    extremes are set, the recorded minimum is at most the frame's
    smoothed signals and the recorded maximum at least, signal by
    signal, and the envelope only grows.  On the first landmark frame
    of a session, with nothing recorded yet, the label is NEUTRAL and
    the toothy flag is off whatever the signals. *)
Theorem extremes_envelope (extremes : Extremes.t)
  (smoothSignals : ExpressionSignals) :
  let '(extremes', label, toothy) := rangeBranch extremes smoothSignals in
  (exists min max,
      Extremes.min extremes' = Some min /\ Extremes.max extremes' = Some max
      /\ signalsLe min smoothSignals /\ signalsLe smoothSignals max
      /\ (forall m, Extremes.min extremes = Some m -> signalsLe min m)
      /\ (forall m, Extremes.max extremes = Some m -> signalsLe m max))
  /\ (Extremes.min extremes = None -> Extremes.max extremes = None ->
      label = NEUTRAL /\ toothy = false).
Proof.
  unfold rangeBranch.
  pose proof (widen_envelope extremes smoothSignals) as (H1 & H2 & H3 & H4).
  destruct (widen extremes smoothSignals) as [min max] eqn:Hw.
  cbn [fst snd] in *. split.
  - exists min, max. cbn [Extremes.min Extremes.max]. split_and!; auto.
  - intros Hmin Hmax. unfold widen in Hw. rewrite Hmin, Hmax in Hw.
    cbn [default] in Hw. apply (f_equal fst) in Hw as Hw1.
    apply (f_equal snd) in Hw as Hw2. cbn [fst snd] in Hw1, Hw2.
    assert (Hm : mouthOpen min == mouthOpen smoothSignals
                 /\ mouthOpen max == mouthOpen smoothSignals
                 /\ smile min == smile smoothSignals
                 /\ smile max == smile smoothSignals
                 /\ eyeOpen min == eyeOpen smoothSignals
                 /\ eyeOpen max == eyeOpen smoothSignals).
    { rewrite <- Hw1, <- Hw2. cbn [mouthOpen smile eyeOpen].
      split_and!; apply Q.min_id || apply Q.max_id. }
    destruct Hm as (Ha & Hb & Hc & Hd & He & Hf).
    split.
    + unfold classifyFromRanges.
      assert (Hg1 : Qltb (mouthOpen max - mouthOpen min) 0.05 = true)
        by (apply Qltb_lt; lra).
      assert (Hg2 : Qltb (smile max - smile min) 0.05 = true)
        by (apply Qltb_lt; lra).
      assert (Hg3 : Qltb (eyeOpen max - eyeOpen min) 0.05 = true)
        by (apply Qltb_lt; lra).
      rewrite Hg1, Hg2, Hg3. reflexivity.
    + apply Qgtb_le. lra.
Qed.

(** Witness of X11: the first frame of a session. *)
Lemma extremes_envelope_witness :
  snd (fst (rangeBranch (extremesRef initialSession)
                        (mkSignals 0.4 0.9 0.9 0.01))) = NEUTRAL.
Proof.
  pose proof (extremes_envelope (extremesRef initialSession)
                                (mkSignals 0.4 0.9 0.9 0.01)) as H.
  destruct (rangeBranch _ _) as [[extremes' label] toothy].
  destruct H as [_ H]. destruct (H eq_refl eq_refl) as [-> _]. reflexivity.
Defined.

(** X12.  In the landmark branch the label and the toothy flag of one
    frame are tied: a frame labelled SMILE or SQUINT is never toothy and
    a frame labelled SCREAM always is, the smile and squint rules asking
    for a mouth below 60% of its range and the flag for a mouth above
    it. *)
Theorem range_label_and_toothy (extremes : Extremes.t)
  (smoothSignals : ExpressionSignals) :
  let '(_, label, toothy) := rangeBranch extremes smoothSignals in
  (label = SMILE -> toothy = false)
  /\ (label = SQUINT -> toothy = false)
  /\ (label = SCREAM -> toothy = true).
Proof.
  unfold rangeBranch.
  pose proof (widen_envelope extremes smoothSignals) as (H1 & H2 & _).
  destruct (widen extremes smoothSignals) as [min max].
  cbn [fst snd] in *.
  destruct H1 as (_ & Hlo & _). destruct H2 as (_ & Hhi & _).
  unfold classifyFromRanges.
  match goal with
  | |- context [if ?g then NEUTRAL else _] => destruct g
  end; [split_and!; discriminate|].
  match goal with
  | |- context [if ?b then SCREAM else _] => destruct b eqn:Hsc
  end.
  { split_and!; try discriminate. intros _.
    apply Qgtb_gt in Hsc. apply Qgtb_gt. lra. }
  match goal with
  | |- context [if ?b then SMILE else _] => destruct b eqn:Hsm
  end.
  { split_and!; try discriminate. intros _.
    apply andb_true_iff in Hsm as [_ Hceil].
    apply Qltb_lt in Hceil. apply Qgtb_le. lra. }
  match goal with
  | |- context [if ?b then SQUINT else _] => destruct b eqn:Hsq
  end.
  { split_and!; try discriminate. intros _.
    apply andb_true_iff in Hsq as [_ Hceil].
    apply Qltb_lt in Hceil. apply Qgtb_le. lra. }
  split_and!; discriminate.
Qed.

(** Witness of X12: a wide mouth over the range 0..1. *)
Lemma range_label_and_toothy_witness :
  snd (rangeBranch {| Extremes.min := Some (mkSignals 1 0 0 0);
                      Extremes.max := Some (mkSignals 1 1 1 1) |}
                   (mkSignals 1 0.9 0.1 0.5)) = true.
Proof.
  pose proof (range_label_and_toothy
                {| Extremes.min := Some (mkSignals 1 0 0 0);
                   Extremes.max := Some (mkSignals 1 1 1 1) |}
                (mkSignals 1 0.9 0.1 0.5)) as H.
  destruct (rangeBranch _ _) as [[extremes' label] toothy] eqn:Hr.
  destruct H as (_ & _ & H). apply H.
  apply (f_equal (fun r => snd (fst r))) in Hr. cbn [fst snd] in Hr.
  rewrite <- Hr. vm_compute. reflexivity.
Defined.

(** ** The callback as a whole *)

Section CallbackFacts.

Variable hypot : Q -> Q -> Q.
Variable debug : bool.

Local Abbreviation onResult := (onResult hypot debug).
Local Abbreviation runLoop := (runLoop hypot debug).
Local Abbreviation processFace := (processFace hypot).
Local Abbreviation classifyFace := (classifyFace hypot).

Lemma presence_keeps st detected now :
  let st' := fst (presence st detected now) in
  labelStabilizerRef st' = labelStabilizerRef st
  /\ smootherRef st' = smootherRef st
  /\ calibrationRef st' = calibrationRef st
  /\ extremesRef st' = extremesRef st
  /\ tongueHoldUntilRef st' = tongueHoldUntilRef st
  /\ toothySmileRef st' = toothySmileRef st
  /\ selectedKey st' = selectedKey st
  /\ expressionLabel st' = expressionLabel st.
Proof. cbn. split_and!; reflexivity. Qed.

(** The three ways a callback ends without an exception. *)
Lemma onResult_shape st tick st' :
  onResult st tick = Some st' ->
  (~ passesGates st tick
   /\ (st' = forceAbsent debug st
       \/ exists video,
           st' = forceAbsent debug
                   (noteVideoTime st video (performanceNow tick))))
  \/ (exists st2,
         labelStabilizerRef st2 = labelStabilizerRef st
         /\ (st' = resetToNeutral st2
             \/ exists video c, st' = finishFace st2 video tick c)).
Proof.
  unfold onResult.
  destruct (videoEl tick) as [video|] eqn:Hv.
  2:{ intros [= <-]. left. split; [|auto].
      intros (v & Hv' & _). congruence. }
  destruct (_ <? _)%Z eqn:Hready.
  { intros [= <-]. left. split; [|auto].
    intros (v & Hv' & Hr & _). apply Z.ltb_lt in Hready.
    assert (v = video) by congruence. subst v. lia. }
  destruct (stalled _ _ _) eqn:Hstall.
  { intros [= <-]. left. split; [|auto].
    intros (v & Hv' & _ & Hs & _).
    assert (v = video) by congruence. subst v. congruence. }
  destruct (trackNotLive _) eqn:Htrack.
  { intros [= <-]. left. split; [|eauto].
    intros (v & Hv' & _ & _ & Ht).
    assert (v = video) by congruence. subst v. congruence. }
  pose proof (presence_keeps (noteVideoTime st video (performanceNow tick))
                (0 <? length (faceLandmarks (result tick)))%nat
                (performanceNow tick)) as (Hk & _).
  destruct (presence _ _ _) as [st2 stableDetected]. cbn [fst] in Hk.
  intros Hst'. right. exists st2. split; [exact Hk|].
  destruct (negb stableDetected); [injection Hst' as <-; auto|].
  unfold processFace in Hst'.
  destruct (classifyFace st2 tick) as [[c|]|]; simplify_eq; eauto.
Qed.

Lemma finishFace_stabilizer st video tick c :
  let st' := finishFace st video tick c in
  let r := LabelStabilizer.update (labelStabilizerRef st)
                                  (rawExpressionLabel st')
                                  (performanceNow tick) in
  labelStabilizerRef st' = fst r
  /\ expressionLabel st' = snd r
  /\ toothySmileRef st' = c_toothySmile c
  /\ selectedKey st'
     = if bool_decide (snd r = SMILE) && c_toothySmile c
       then "grin"%string else mapExpressionToMeme (snd r).
Proof.
  unfold finishFace.
  destruct (match c_landmarkSignals c with
            | Some _ => _
            | None => _
            end) as [[confidence holdUntil] nextLabel].
  destruct (LabelStabilizer.update _ _ _) as [stabilizer stableLabel] eqn:Hu.
  cbn. rewrite Hu. split_and!; reflexivity.
Qed.

Lemma onResult_total st tick :
  completeFaces tick -> is_Some (onResult st tick).
Proof.
  intros Hc. unfold onResult.
  destruct (videoEl tick) as [video|]; [|eexists; reflexivity].
  destruct (_ <? _)%Z; [eexists; reflexivity|].
  destruct (stalled _ _ _); [eexists; reflexivity|].
  destruct (trackNotLive _); [eexists; reflexivity|].
  destruct (presence _ _ _) as [st2 stableDetected].
  destruct (negb stableDetected); [eexists; reflexivity|].
  apply processFace_total, Hc.
Qed.

Lemma passesGates_dec st tick : passesGates st tick \/ ~ passesGates st tick.
Proof.
  unfold passesGates.
  destruct (videoEl tick) as [video|];
    [|right; intros (v & Hv & _); discriminate].
  destruct (Z_le_dec 2 (readyState video)) as [Hr|Hr];
    [|right; intros (v & Hv & Hr' & _); injection Hv as <-; lia].
  destruct (stalled st video (performanceNow tick)) eqn:Hs;
    [right; intros (v & Hv & _ & Hs' & _); injection Hv as <-; congruence|].
  destruct (trackNotLive video) eqn:Ht;
    [right; intros (v & Hv & _ & _ & Ht'); injection Hv as <-; congruence|].
  left. exists video. auto.
Qed.

End CallbackFacts.

Lemma forced_absent_result (hypot : Q -> Q -> Q) (debug : bool)
  (st : Session) (tick : Tick) :
  ~ passesGates st tick ->
  exists st',
    onResult hypot debug st tick = Some st'
    /\ selectedKey st' = "neutral"%string
    /\ lastDetectedAtRef st' = None
    /\ lastFaceStateRef st' = false
    /\ (coherent st -> faceDetected st' = false)
    /\ labelStabilizerRef st' = pipelineStabilizer
    /\ smootherRef st' = smootherRef st
    /\ extremesRef st' = extremesRef st
    /\ calibrationRef st' = calibrationRef st
    /\ tongueHoldUntilRef st' = tongueHoldUntilRef st.
Proof.
  intros Hfail.
  assert (Hfd : forall s, lastFaceStateRef s = lastFaceStateRef st ->
                          faceDetected s = faceDetected st ->
                          coherent st ->
                          faceDetected (forceAbsent debug s) = false).
  { intros s Hl Hf Hco. cbn. rewrite Hl, Hf, Hco.
    destruct (faceDetected st); reflexivity. }
  unfold onResult.
  destruct (videoEl tick) as [video|] eqn:Hv.
  2:{ eexists. split; [reflexivity|]. split_and!; try reflexivity.
      apply Hfd; reflexivity. }
  destruct (_ <? _)%Z eqn:Hready.
  { eexists. split; [reflexivity|]. split_and!; try reflexivity.
    apply Hfd; reflexivity. }
  destruct (stalled _ _ _) eqn:Hstall.
  { eexists. split; [reflexivity|]. split_and!; try reflexivity.
    apply Hfd; reflexivity. }
  destruct (trackNotLive _) eqn:Htrack.
  { eexists. split; [reflexivity|]. split_and!; try reflexivity.
    apply Hfd; reflexivity. }
  exfalso. apply Hfail. exists video. apply Z.ltb_ge in Hready. auto.
Qed.

(** X13.  A frame that fails a liveness check (no video element or one
    not ready, a playback position that has not moved for more than 600
    ms, no live track) ends the callback at once: the key is "neutral",
    the time of the last detection is cleared, the presence flag is
    off, the stabilizer is replaced by a fresh one, and the smoother,
    the extremes, the calibration and the tongue hold are left as they
    were. *)
Theorem failed_liveness_forces_absent (hypot : Q -> Q -> Q) (debug : bool)
  (st : Session) (tick : Tick) :
  ~ passesGates st tick ->
  exists st',
    onResult hypot debug st tick = Some st'
    /\ selectedKey st' = "neutral"%string
    /\ lastDetectedAtRef st' = None
    /\ lastFaceStateRef st' = false
    /\ (coherent st -> faceDetected st' = false)
    /\ labelStabilizerRef st' = pipelineStabilizer
    /\ smootherRef st' = smootherRef st
    /\ extremesRef st' = extremesRef st
    /\ calibrationRef st' = calibrationRef st
    /\ tongueHoldUntilRef st' = tongueHoldUntilRef st.
Proof. apply forced_absent_result. Qed.

(** Witness of X13: a frame whose track has ended. *)
Lemma failed_liveness_forces_absent_witness :
  exists st',
    onResult hypotAxis false initialSession
             (mkTick (Some (mkVideo 4 0 (Some ended) 640 480 dark)) 50
                     (mkCanvas true) (mkResult [face 0.08] []))
    = Some st'
    /\ selectedKey st' = "neutral"%string.
Proof.
  destruct (failed_liveness_forces_absent
              hypotAxis false initialSession
              (mkTick (Some (mkVideo 4 0 (Some ended) 640 480 dark)) 50
                      (mkCanvas true) (mkResult [face 0.08] [])))
    as (st' & H1 & H2 & _).
  - intros (v & Hv & _ & _ & Ht). injection Hv as <-. discriminate Ht.
  - exists st'. auto.
Defined.

(** X14.  The callback throws only on a frame that passes the liveness
    checks and whose first face has 386 landmarks or fewer; a loop fed
    frames whose first faces are complete runs through all of them. *)
Theorem callback_throws_only_on_short_faces (hypot : Q -> Q -> Q)
  (debug : bool) (st : Session) (tick : Tick) (ticks : list Tick) :
  (onResult hypot debug st tick = None ->
   passesGates st tick
   /\ exists landmarks,
       head (faceLandmarks (result tick)) = Some landmarks
       /\ (length landmarks <= 386)%nat)
  /\ (Forall completeFaces ticks -> is_Some (runLoop hypot debug st ticks)).
Proof.
  split.
  - intros Hnone.
    assert (Hshort : ~ completeFaces tick).
    { intros Hc. destruct (onResult_total hypot debug st tick Hc) as [x Hx].
      congruence. }
    split.
    + destruct (passesGates_dec st tick) as [Hg | Hg]; [exact Hg|].
      destruct (forced_absent_result hypot debug st tick Hg)
        as (st' & Hst' & _). congruence.
    + unfold completeFaces in Hshort.
      destruct (head (faceLandmarks (result tick))) as [landmarks|];
        [|tauto].
      exists landmarks. split; [reflexivity | lia].
  - intros Hall. revert st.
    induction Hall as [|tick' rest Hc _ IH]; intros st; cbn [runLoop].
    + eexists; reflexivity.
    + destruct (onResult_total hypot debug st tick' Hc) as [st' ->].
      apply IH.
Qed.

(** Witness of X14: three frames of the sample face. *)
Lemma callback_throws_only_on_short_faces_witness :
  is_Some (runLoop hypotAxis false initialSession
                   [frame 0 dark [face 0.08] []; frame 80 dark [] [];
                    frame 160 dark [face 0.2] [wideOpen]]).
Proof.
  apply (proj2 (callback_throws_only_on_short_faces
                  hypotAxis false initialSession (frame 0 dark [] [])
                  [frame 0 dark [face 0.08] []; frame 80 dark [] [];
                   frame 160 dark [face 0.2] [wideOpen]])).
  repeat constructor; unfold completeFaces, face; cbn [head frame result
    faceLandmarks]; rewrite ?length_map, ?length_seq; lia.
Defined.

(** X15.  After every callback the selected key agrees with the
    displayed label: it is "neutral", or the key [mapExpressionToMeme]
    gives the label, or "grin", and "grin" only with the label SMILE and
    the toothy flag set. *)
Theorem selected_key_follows_label (hypot : Q -> Q -> Q) (debug : bool)
  (st st' : Session) (tick : Tick) :
  onResult hypot debug st tick = Some st' ->
  keyConsistent st'
  /\ (selectedKey st' = "grin"%string ->
      expressionLabel st' = SMILE /\ toothySmileRef st' = true).
Proof.
  intros Hstep.
  assert (Hk : keyConsistent st').
  { destruct (onResult_shape hypot debug st tick st' Hstep)
      as [(_ & [-> | (video & ->)]) | (st2 & _ & [-> | (video & c & ->)])];
      try (left; reflexivity).
    destruct (finishFace_stabilizer st2 video tick c) as (_ & Hl & Ht & Hkey).
    unfold keyConsistent. rewrite Hkey, Hl, Ht.
    destruct (bool_decide _ && _) eqn:Hgrin; [|auto].
    apply andb_true_iff in Hgrin as [Hs Htoothy].
    apply bool_decide_eq_true in Hs. auto. }
  split; [exact Hk|].
  intros Hgrin. destruct Hk as [Hn | [Hm | (_ & Hs & Ht)]]; [| |auto].
  - rewrite Hgrin in Hn. discriminate Hn.
  - rewrite Hgrin in Hm. destruct (expressionLabel st'); discriminate Hm.
Qed.

(** Witness of X15: the first frame of a session. *)
Lemma selected_key_follows_label_witness :
  keyConsistent
    (default initialSession
       (onResult hypotAxis false initialSession
                 (frame 0 dark [face 0.08] [wideOpen]))).
Proof.
  destruct (onResult hypotAxis false initialSession
                     (frame 0 dark [face 0.08] [wideOpen])) as [st'|] eqn:H.
  - exact (proj1 (selected_key_follows_label hypotAxis false initialSession st'
                    (frame 0 dark [face 0.08] [wideOpen]) H)).
  - left. reflexivity.
Defined.

Lemma settled_update (k : Z) (s : LabelStabilizer.t ExpressionLabel)
  (l : ExpressionLabel) (t : Q) :
  LabelStabilizer.current s = NEUTRAL ->
  LabelStabilizer.stableFrames s = 5%Z ->
  (0 <= LabelStabilizer.pendingFrames s <= k)%Z -> (k <= 3)%Z ->
  let r := LabelStabilizer.update s l t in
  snd r = NEUTRAL
  /\ LabelStabilizer.current (fst r) = NEUTRAL
  /\ LabelStabilizer.stableFrames (fst r) = 5%Z
  /\ (0 <= LabelStabilizer.pendingFrames (fst r) <= k + 1)%Z.
Proof.
  intros Hc Hsf Hpf Hk. unfold LabelStabilizer.update.
  destruct (decide (l = LabelStabilizer.current s)); cbn;
    [split_and!; auto; lia|].
  destruct (decide (Some l <> LabelStabilizer.pending s)); cbn;
    [split_and!; auto; lia|].
  rewrite Hsf.
  assert (Hno : (5 <=? LabelStabilizer.pendingFrames s + 1)%Z = false)
    by (apply Z.leb_gt; lia).
  rewrite Hno. cbn. split_and!; auto; lia.
Qed.

Lemma settled_step (hypot : Q -> Q -> Q) (debug : bool) (k : Z)
  (st st' : Session) (tick : Tick) :
  settled k st -> (k <= 3)%Z ->
  onResult hypot debug st tick = Some st' ->
  settled (k + 1) st' /\ selectedKey st' = "neutral"%string.
Proof.
  intros (Hc & Hsf & Hpf) Hk Hstep.
  assert (Hfresh : settled (k + 1) (forceAbsent debug st)
                   /\ forall s, settled (k + 1) (resetToNeutral s)).
  { split; [|intros s]; unfold settled; cbn; split_and!; auto; lia. }
  destruct (onResult_shape hypot debug st tick st' Hstep)
    as [(_ & [-> | (video & ->)]) | (st2 & Hst2 & [-> | (video & c & ->)])].
  - split; [apply Hfresh | reflexivity].
  - split; [|reflexivity]. unfold settled; cbn; split_and!; auto; lia.
  - split; [apply Hfresh | reflexivity].
  - destruct (finishFace_stabilizer st2 video tick c) as (Hs & _ & _ & Hkey).
    rewrite <- Hst2 in Hc, Hsf, Hpf.
    destruct (settled_update k (labelStabilizerRef st2)
                (rawExpressionLabel (finishFace st2 video tick c))
                (performanceNow tick) Hc Hsf Hpf Hk)
      as (Hout & Hc' & Hsf' & Hpf').
    split.
    + unfold settled. rewrite Hs. auto.
    + rewrite Hkey, Hout. reflexivity.
Qed.

Lemma settled_run (hypot : Q -> Q -> Q) (debug : bool) (ticks : list Tick) :
  forall (k : Z) (st st' : Session),
    settled k st -> (k + Z.of_nat (length ticks) <= 4)%Z ->
    (1 <= length ticks)%nat ->
    runLoop hypot debug st ticks = Some st' ->
    settled (k + Z.of_nat (length ticks)) st'
    /\ selectedKey st' = "neutral"%string.
Proof.
  induction ticks as [|tick rest IH]; intros k st st' Hs Hk Hlen Hrun.
  - cbn in Hlen. lia.
  - cbn [runLoop length] in *.
    destruct (onResult hypot debug st tick) as [st1|] eqn:Hstep;
      [|discriminate].
    destruct (settled_step hypot debug k st st1 tick Hs ltac:(lia) Hstep)
      as [Hs1 Hkey1].
    destruct rest as [|tick2 rest].
    + cbn in Hrun. injection Hrun as <-. cbn [length].
      replace (k + Z.of_nat 1)%Z with (k + 1)%Z by lia. auto.
    + destruct (IH (k + 1)%Z st1 st' Hs1) as [Hfin Hkey];
        [cbn [length] in *; lia | cbn [length]; lia | exact Hrun |].
      split; [|exact Hkey].
      replace (k + Z.of_nat (S (length (tick2 :: rest))))%Z
        with (k + 1 + Z.of_nat (length (tick2 :: rest)))%Z by lia.
      exact Hfin.
Qed.

(** X16.  From a session whose stabilizer has just been created (at
    start, or by any frame that ended ABSENT), the first four callbacks
    keep the stabilizer at NEUTRAL and the selected key at "neutral"
    whatever the frames show: no expression is displayed on fewer than
    five frames. *)
Theorem fresh_stabilizer_holds_neutral (hypot : Q -> Q -> Q) (debug : bool)
  (st st' : Session) (ticks : list Tick) :
  labelStabilizerRef st = pipelineStabilizer ->
  (1 <= length ticks <= 4)%nat ->
  runLoop hypot debug st ticks = Some st' ->
  selectedKey st' = "neutral"%string
  /\ LabelStabilizer.current (labelStabilizerRef st') = NEUTRAL.
Proof.
  intros Hfresh Hlen Hrun.
  assert (Hs : settled 0 st).
  { unfold settled. rewrite Hfresh. cbn. split_and!; auto; lia. }
  destruct (settled_run hypot debug ticks 0%Z st st' Hs ltac:(lia) ltac:(lia)
                        Hrun) as [(Hc & _) Hkey].
  auto.
Qed.

(** Witness of X16: four wide-open frames at the start of a session. *)
Lemma fresh_stabilizer_holds_neutral_witness :
  selectedKey
    (default initialSession
       (runLoop hypotAxis false initialSession
                [frame 1000 dark [face 0.08] [wideOpen];
                 frame 1080 dark [face 0.08] [wideOpen];
                 frame 1160 dark [face 0.08] [wideOpen];
                 frame 1240 dark [face 0.08] [wideOpen]]))
  = "neutral"%string.
Proof.
  destruct (runLoop hypotAxis false initialSession
                    [frame 1000 dark [face 0.08] [wideOpen];
                     frame 1080 dark [face 0.08] [wideOpen];
                     frame 1160 dark [face 0.08] [wideOpen];
                     frame 1240 dark [face 0.08] [wideOpen]])
    as [st'|] eqn:Hrun; [|reflexivity].
  refine (proj1 (fresh_stabilizer_holds_neutral
                   hypotAxis false initialSession st' _ eq_refl _ Hrun)).
  cbn. lia.
Defined.

(** ** The detection loop *)

Lemma stop_clears l : oneTimer l -> FaceLoop.timers (FaceLoop.stop l) = ∅.
Proof.
  unfold FaceLoop.stop. cbn [FaceLoop.timers].
  intros [-> | (id0 & -> & ->)].
  - destruct (FaceLoop.timeoutId l); [apply delete_empty | reflexivity].
  - apply delete_singleton_eq.
Qed.

Lemma timerFires_set l id c :
  oneTimer l -> is_Some (FaceLoop.timers l !! id) ->
  FaceLoop.timerFires id c l
  = FaceLoop.tick c {| FaceLoop.stopped := FaceLoop.stopped l;
                       FaceLoop.timeoutId := Some id;
                       FaceLoop.intervalMs := FaceLoop.intervalMs l;
                       FaceLoop.timers := ∅;
                       FaceLoop.nextTimer := FaceLoop.nextTimer l;
                       FaceLoop.cycles := FaceLoop.cycles l |}.
Proof.
  intros Hone [d Hid]. unfold FaceLoop.timerFires. rewrite Hid.
  destruct Hone as [Hempty | (id0 & Hid0 & Hone)].
  { rewrite Hempty, lookup_empty in Hid. discriminate. }
  rewrite Hone in Hid. apply lookup_singleton_Some in Hid as [<- _].
  rewrite Hid0, Hone, delete_singleton_eq. reflexivity.
Qed.

Lemma oneTimer_step l e : oneTimer l -> oneTimer (FaceLoop.step l e).
Proof.
  intros Hone. destruct e as [id c|]; cbn [FaceLoop.step].
  - destruct (FaceLoop.timers l !! id) as [d|] eqn:Hid.
    + rewrite (timerFires_set l id c Hone) by (rewrite Hid; eauto).
      unfold FaceLoop.tick. cbn [FaceLoop.stopped].
      destruct (FaceLoop.stopped l); [left; reflexivity|].
      destruct c as [[] []]; unfold oneTimer, FaceLoop.schedule, FaceLoop.stop;
        cbn; rewrite ?delete_empty;
        (left; reflexivity) || (right; eexists; split; reflexivity).
    + unfold FaceLoop.timerFires. rewrite Hid. exact Hone.
  - left. apply stop_clears, Hone.
Qed.

Lemma oneTimer_start fps next : oneTimer (FaceLoop.startFaceLoop fps next).
Proof.
  right. eexists. split; reflexivity.
Qed.

Lemma oneTimer_run l events : oneTimer l -> oneTimer (FaceLoop.run l events).
Proof.
  unfold FaceLoop.run. revert l.
  induction events as [|e events IH]; intros l Hl; [exact Hl|].
  cbn [foldl]. apply IH, oneTimer_step, Hl.
Qed.

Lemma step_interval l e :
  FaceLoop.intervalMs (FaceLoop.step l e) = FaceLoop.intervalMs l.
Proof.
  destruct e as [id [stops returns]|]; cbn [FaceLoop.step]; [|reflexivity].
  unfold FaceLoop.timerFires, FaceLoop.tick.
  destruct (FaceLoop.timers l !! id); [|reflexivity].
  cbn [FaceLoop.stopped FaceLoop.callsStop FaceLoop.completes].
  destruct (FaceLoop.stopped l), stops, returns; reflexivity.
Qed.

Lemma run_interval l events :
  FaceLoop.intervalMs (FaceLoop.run l events) = FaceLoop.intervalMs l.
Proof.
  unfold FaceLoop.run. revert l.
  induction events as [|e events IH]; intros l; [reflexivity|].
  cbn [foldl]. rewrite IH. apply step_interval.
Qed.

(** A stopped loop starts no cycle, whatever happens to it. *)
Lemma stopped_step l e :
  FaceLoop.stopped l = true ->
  FaceLoop.stopped (FaceLoop.step l e) = true
  /\ FaceLoop.cycles (FaceLoop.step l e) = FaceLoop.cycles l.
Proof.
  intros Hs. destruct e as [id c|]; cbn [FaceLoop.step].
  - unfold FaceLoop.timerFires, FaceLoop.tick.
    destruct (FaceLoop.timers l !! id); [|auto].
    cbn [FaceLoop.stopped]. rewrite Hs. cbn [FaceLoop.stopped FaceLoop.cycles].
    auto.
  - split; reflexivity.
Qed.

Lemma stopped_run l events :
  FaceLoop.stopped l = true ->
  FaceLoop.stopped (FaceLoop.run l events) = true
  /\ FaceLoop.cycles (FaceLoop.run l events) = FaceLoop.cycles l.
Proof.
  unfold FaceLoop.run. revert l.
  induction events as [|e events IH]; intros l Hs; [auto|].
  cbn [foldl]. destruct (stopped_step l e Hs) as [Hs1 Hc1].
  destruct (IH _ Hs1) as [? ->]. auto.
Qed.

Lemma halted_run l events : halted l -> halted (FaceLoop.run l events).
Proof.
  unfold FaceLoop.run. revert l.
  induction events as [|e events IH]; intros l Hl; [exact Hl|].
  cbn [foldl]. apply IH. destruct Hl as [Hs Ht].
  split; [apply stopped_step, Hs|].
  destruct e as [id c|]; cbn [FaceLoop.step].
  - unfold FaceLoop.timerFires. rewrite Ht, lookup_empty. exact Ht.
  - apply stop_clears. left. exact Ht.
Qed.

Lemma interval_of_rate (q : Q) :
  ~ q == 0 ->
  exists z, (1 <= z)%Z
            /\ FaceLoop.atLeastOne
                 (FaceLoop.round (FaceLoop.perSecond (FaceLoop.Finite q)))
               = FaceLoop.Finite (inject_Z z).
Proof.
  intros Hq. unfold FaceLoop.perSecond.
  destruct (Qeq_bool q 0) eqn:Hz; [apply Qeq_bool_iff in Hz; contradiction|].
  cbn [FaceLoop.round FaceLoop.atLeastOne].
  set (f := Qfloor _). unfold Qmax, GenericMinMax.gmax.
  destruct (1 ?= inject_Z f) eqn:Hcmp.
  - exists 1%Z. split; [lia | reflexivity].
  - exists f. split; [|reflexivity].
    apply Qlt_alt in Hcmp. change 1 with (inject_Z 1) in Hcmp.
    rewrite <- Zlt_Qlt in Hcmp. lia.
  - exists 1%Z. split; [lia | reflexivity].
Qed.

(** X17.  Whatever timers fire, whatever the cycles do and whenever the
    loop is stopped, a face loop has at most one timer set, the one it
    remembers, with the delay computed at the start: 83 ms by default,
    a whole number of milliseconds, at least 1, for a finite rate of
    magnitude 10^-6 or more (so that 1000 / fps is far from overflow),
    and Infinity or NaN for a rate of 0 or NaN.  Once the loop
    is stopped no detection cycle starts any more.  Stopping it between
    cycles leaves no timer set, for good; stopping it from within a
    cycle that returns leaves one timer set, the one scheduled after the
    callback, which fires without starting a cycle. *)
Theorem face_loop_single_timer (fps : option FaceLoop.number) (next : nat)
  (before after : list FaceLoop.event) :
  let l := FaceLoop.run (FaceLoop.startFaceLoop fps next) before in
  oneTimer l
  /\ (FaceLoop.stopped l = true ->
      FaceLoop.cycles (FaceLoop.run l after) = FaceLoop.cycles l)
  /\ halted (FaceLoop.run (FaceLoop.stop l) after)
  /\ (forall id,
        FaceLoop.stopped l = false -> is_Some (FaceLoop.timers l !! id) ->
        let l' := FaceLoop.timerFires id (FaceLoop.mkCycle true true) l in
        FaceLoop.stopped l' = true
        /\ FaceLoop.cycles l' = S (FaceLoop.cycles l)
        /\ FaceLoop.timers l'
           = {[FaceLoop.nextTimer l := FaceLoop.intervalMs l]}
        /\ FaceLoop.cycles (FaceLoop.run l' after) = FaceLoop.cycles l')
  /\ (fps = None -> FaceLoop.intervalMs l = FaceLoop.Finite 83)
  /\ (forall q,
        fps = Some (FaceLoop.Finite q) -> 1 # 1000000 <= Qabs q ->
        exists z, (1 <= z)%Z
                  /\ FaceLoop.intervalMs l = FaceLoop.Finite (inject_Z z))
  /\ (fps = Some (FaceLoop.Finite 0) ->
      FaceLoop.intervalMs l = FaceLoop.PosInfinity)
  /\ (fps = Some FaceLoop.NaN -> FaceLoop.intervalMs l = FaceLoop.NaN).
Proof.
  intros l.
  assert (Hl : oneTimer l) by apply oneTimer_run, oneTimer_start.
  assert (Hint : FaceLoop.intervalMs l
                 = FaceLoop.atLeastOne
                     (FaceLoop.round
                        (FaceLoop.perSecond
                           (default (FaceLoop.Finite 12) fps))))
    by apply run_interval.
  split_and!.
  - exact Hl.
  - intros Hs. apply stopped_run, Hs.
  - apply halted_run. split; [reflexivity | apply stop_clears, Hl].
  - intros id Hs Hid l'. subst l'.
    rewrite (timerFires_set l id _ Hl Hid).
    unfold FaceLoop.tick. cbn [FaceLoop.stopped]. rewrite Hs.
    cbn [FaceLoop.callsStop FaceLoop.completes].
    set (l' := FaceLoop.schedule _).
    assert (Hs' : FaceLoop.stopped l' = true) by reflexivity.
    split_and!; [exact Hs' | reflexivity | | apply stopped_run, Hs'].
    subst l'. unfold FaceLoop.schedule, FaceLoop.stop.
    cbn. rewrite delete_empty. reflexivity.
  - intros ->. rewrite Hint. vm_compute. reflexivity.
  - intros q -> Hq. rewrite Hint. apply interval_of_rate.
    intros Hz. rewrite Hz in Hq. vm_compute in Hq. apply Hq. reflexivity.
  - intros ->. rewrite Hint. reflexivity.
  - intros ->. rewrite Hint. reflexivity.
Qed.

(** Witness of X17: a loop at 24 frames per second after one cycle, and
    a stop from within that cycle. *)
Lemma face_loop_single_timer_witness :
  (exists z, (1 <= z)%Z
             /\ FaceLoop.intervalMs
                  (FaceLoop.run
                     (FaceLoop.startFaceLoop (Some (FaceLoop.Finite 24)) 0)
                     [FaceLoop.TimerFires 0 (FaceLoop.mkCycle false true)])
                = FaceLoop.Finite (inject_Z z))
  /\ FaceLoop.timers
       (FaceLoop.timerFires 0 (FaceLoop.mkCycle true true)
          (FaceLoop.startFaceLoop (Some (FaceLoop.Finite 24)) 0))
     = {[1%nat := FaceLoop.Finite 42]}.
Proof.
  split.
  - apply (proj1 (proj2 (proj2 (proj2 (proj2 (proj2
             (face_loop_single_timer
                (Some (FaceLoop.Finite 24)) 0
                [FaceLoop.TimerFires 0 (FaceLoop.mkCycle false true)] []))))))
             24 eq_refl).
    vm_compute. discriminate.
  - apply (proj1 (proj2 (proj2 (proj2
             (face_loop_single_timer (Some (FaceLoop.Finite 24)) 0 [] []))))
             0%nat eq_refl).
    vm_compute. eexists. reflexivity.
Defined.

(** ** More on the colour detector and the stall check *)

Lemma filter_all {A : Type} (f : A -> bool) (l : list A) :
  Forall (fun a => f a = true) l -> List.filter f l = l.
Proof.
  induction 1 as [|a l Ha _ IH]; cbn [List.filter]; [reflexivity|].
  rewrite Ha, IH. reflexivity.
Qed.

Lemma filter_none {A : Type} (f : A -> bool) (l : list A) :
  Forall (fun a => f a = false) l -> List.filter f l = [].
Proof.
  induction 1 as [|a l Ha _ IH]; cbn [List.filter]; [reflexivity|].
  rewrite Ha. exact IH.
Qed.

(** X19.  On a frame all of whose pixels are red-dominant the colour
    detector, when it returns a value, returns 1; on a frame none of
    whose pixels is red-dominant it returns 0. *)
Theorem tongue_confidence_of_uniform_frames (video : HTMLVideoElement)
  (landmarks : list Landmark.t) (canvas : HTMLCanvasElement) (c : Q) :
  getTongueConfidence video landmarks canvas = Some c ->
  ((forall x y, RedDominant (pixelAt video x y)) -> c == 1)
  /\ ((forall x y, ~ RedDominant (pixelAt video x y)) -> c == 0).
Proof.
  intros Hc.
  destruct (getTongueConfidence_Some _ _ _ _ Hc) as (r & _ & _ & Hdata & ->).
  assert (Hpix : forall P : Pixel -> Prop,
             (forall x y, P (pixelAt video x y)) ->
             Forall P (getImageData video r)).
  { intros P HP. unfold getImageData. apply Forall_forall. intros p Hin.
    apply list_elem_of_bind in Hin as (row & Hin & _).
    apply list_elem_of_bind in Hin as (col & Hin & _).
    apply list_elem_of_singleton in Hin as ->. apply HP. }
  assert (Hlen : ~ inject_Z (Z.of_nat (length (getImageData video r))) == 0).
  { intros Hz. change 0 with (inject_Z 0) in Hz. apply inject_Z_injective in Hz.
    destruct (getImageData video r); [congruence | cbn in Hz; discriminate]. }
  split.
  - intros Hred. rewrite filter_all.
    + field. exact Hlen.
    + eapply Forall_impl; [apply (Hpix _ Hred)|].
      intros p Hp. apply redDominant_spec, Hp.
  - intros Hnone. rewrite filter_none.
    + cbn. field. exact Hlen.
    + eapply Forall_impl; [apply (Hpix (fun p => ~ RedDominant p) Hnone)|].
      intros p Hp. apply not_true_iff_false. rewrite redDominant_spec. exact Hp.
Qed.

(** Witness of X19: the red and the dark sample frames. *)
Lemma tongue_confidence_of_uniform_frames_witness :
  1472 # 1472 == 1.
Proof.
  apply (proj1 (tongue_confidence_of_uniform_frames
                  (camera 0 tongueRed) (face 0.08) (mkCanvas true)
                  (1472 # 1472) eq_refl)).
  intros x y. unfold RedDominant. cbn. split_and!; try lia.
  vm_compute. reflexivity.
Defined.

Section StallFacts.

Variable hypot : Q -> Q -> Q.
Variable debug : bool.

Local Abbreviation onResult := (onResult hypot debug).
Local Abbreviation runLoop := (runLoop hypot debug).

Lemma finishFace_video_time st video tick c :
  lastVideoTimeRef (finishFace st video tick c) = lastVideoTimeRef st
  /\ lastVideoTimeAtRef (finishFace st video tick c) = lastVideoTimeAtRef st.
Proof. unfold finishFace. repeat case_match; cbn; auto. Qed.

Lemma noteVideoTime_still st video now c0 :
  lastVideoTimeRef st = Some c0 ->
  Qeq_bool (currentTime video) c0 = true ->
  lastVideoTimeRef (noteVideoTime st video now) = Some c0
  /\ lastVideoTimeAtRef (noteVideoTime st video now) = lastVideoTimeAtRef st.
Proof.
  intros Hl Hq. unfold noteVideoTime. cbn. rewrite Hl, Hq. cbn. auto.
Qed.

Lemma onResult_still st tick st' c0 :
  lastVideoTimeRef st = Some c0 -> stillAt c0 tick ->
  onResult st tick = Some st' ->
  lastVideoTimeRef st' = Some c0
  /\ lastVideoTimeAtRef st' = lastVideoTimeAtRef st.
Proof.
  intros Hl Hstill. unfold onResult, stillAt in *.
  destruct (videoEl tick) as [video|]; [|intros [= <-]; cbn; auto].
  destruct (_ <? _)%Z; [intros [= <-]; cbn; auto|].
  destruct (stalled _ _ _); [intros [= <-]; cbn; auto|].
  pose proof (noteVideoTime_still st video (performanceNow tick) c0 Hl Hstill)
    as [Hn1 Hn2].
  destruct (trackNotLive _); [intros [= <-]; cbn; auto|].
  destruct (presence _ _ _) as [st2 stableDetected] eqn:Hp.
  apply (f_equal fst) in Hp. cbn [fst] in Hp.
  assert (Hk : lastVideoTimeRef st2 = Some c0
               /\ lastVideoTimeAtRef st2 = lastVideoTimeAtRef st).
  { rewrite <- Hp. cbn. auto. }
  destruct Hk as [Hk1 Hk2].
  destruct (negb stableDetected); [intros [= <-]; cbn; auto|].
  unfold processFace. destruct (classifyFace hypot st2 tick) as [[c|]|];
    [|intros [= <-]; cbn; auto | discriminate].
  intros [= <-].
  destruct (finishFace_video_time st2 video tick c) as [-> ->]. auto.
Qed.

Lemma runLoop_still ticks st st' c0 :
  lastVideoTimeRef st = Some c0 -> Forall (stillAt c0) ticks ->
  runLoop st ticks = Some st' ->
  lastVideoTimeRef st' = Some c0
  /\ lastVideoTimeAtRef st' = lastVideoTimeAtRef st.
Proof.
  intros Hl Hall. revert st Hl.
  induction Hall as [|tick ticks Ht _ IH]; intros st Hl; cbn.
  - cbn. intros [= <-]. auto.
  - cbn. destruct (onResult st tick) as [st1|] eqn:Hstep; [|discriminate].
    destruct (onResult_still st tick st1 c0 Hl Ht Hstep) as [H1 H2].
    intros Hrun. destruct (IH st1 H1 Hrun) as [H3 H4].
    split; [exact H3 | congruence].
Qed.

End StallFacts.

(** X20.  While the frames show no video element or the same playback
    position, the time at which that position was first seen is kept;
    a frame at the same position is then forced ABSENT as soon as it
    comes more than 600 ms after that time, and passes the stall check
    up to 600 ms. *)
Theorem stalled_stream_is_forced_absent (hypot : Q -> Q -> Q) (debug : bool)
  (st st1 : Session) (ticks : list Tick) (tick : Tick)
  (video : HTMLVideoElement) (c0 : Q) :
  lastVideoTimeRef st = Some c0 ->
  Forall (stillAt c0) ticks ->
  runLoop hypot debug st ticks = Some st1 ->
  videoEl tick = Some video ->
  Qeq_bool (currentTime video) c0 = true ->
  lastVideoTimeAtRef st1 = lastVideoTimeAtRef st
  /\ (600 < performanceNow tick - lastVideoTimeAtRef st ->
      exists st2,
        onResult hypot debug st1 tick = Some st2
        /\ selectedKey st2 = "neutral"%string
        /\ lastFaceStateRef st2 = false
        /\ lastDetectedAtRef st2 = None)
  /\ (performanceNow tick - lastVideoTimeAtRef st <= 600 ->
      stalled st1 video (performanceNow tick) = false).
Proof.
  intros Hl Hall Hrun Hv Hq.
  destruct (runLoop_still hypot debug ticks st st1 c0 Hl Hall Hrun) as [H1 H2].
  assert (Hstall : stalled st1 video (performanceNow tick)
                   = Qgtb (performanceNow tick - lastVideoTimeAtRef st) 600).
  { unfold stalled. rewrite H1, Hq, H2. reflexivity. }
  split_and!; [exact H2 | |].
  - intros Hlate.
    destruct (forced_absent_result hypot debug st1 tick)
      as (st2 & Hst2 & Hkey & Hdet & Hface & _).
    + intros (v & Hv' & _ & Hs & _).
      assert (v = video) by congruence. subst v.
      rewrite Hstall in Hs. apply Qgtb_le in Hs. lra.
    + exists st2. auto.
  - intros Hearly. rewrite Hstall. apply Qgtb_le. exact Hearly.
Qed.

(** Witness of X20: a position first seen at 0 ms, seen again at 300 ms
    and at 700 ms. *)
Lemma stalled_stream_is_forced_absent_witness :
  exists st2,
    onResult hypotAxis false
             (default initialSession
                (runLoop hypotAxis false initialSession
                   [frame 0 dark [face 0.08] [];
                    mkTick (Some (camera 0 dark)) 300 (mkCanvas true)
                           (mkResult [face 0.08] [])]))
             (mkTick (Some (camera 0 dark)) 700 (mkCanvas true)
                     (mkResult [face 0.08] []))
    = Some st2
    /\ selectedKey st2 = "neutral"%string.
Proof.
  destruct (stalled_stream_is_forced_absent
              hypotAxis false
              (default initialSession
                 (onResult hypotAxis false initialSession
                           (frame 0 dark [face 0.08] [])))
              (default initialSession
                 (runLoop hypotAxis false initialSession
                    [frame 0 dark [face 0.08] [];
                     mkTick (Some (camera 0 dark)) 300 (mkCanvas true)
                            (mkResult [face 0.08] [])]))
              [mkTick (Some (camera 0 dark)) 300 (mkCanvas true)
                      (mkResult [face 0.08] [])]
              (mkTick (Some (camera 0 dark)) 700 (mkCanvas true)
                      (mkResult [face 0.08] []))
              (camera 0 dark) (0 # 1000))
    as (_ & Hlate & _).
  - vm_compute. reflexivity.
  - repeat constructor.
  - vm_compute. reflexivity.
  - reflexivity.
  - reflexivity.
  - destruct Hlate as (st2 & H2 & Hkey & _).
    + vm_compute. reflexivity.
    + exists st2. auto.
Defined.
